(** * PyBrush: the canvas/tool engine of [pybrush.py]

    A shallow embedding of the drawing engine of the PyGame paint program
    (flood fill, the drawing helpers, the per-frame event handling and the
    preview pass), followed by the properties established for it. *)

From stdpp Require Import gmap.

#[local] Open Scope Z_scope.

(** ** Constants (pybrush.py, lines 12-34) *)

Definition WIDTH : Z := 1000.
Definition HEIGHT : Z := 700.
Definition CANVAS_WIDTH : Z := 800.
Definition CANVAS_HEIGHT : Z := 600.
Definition TOOLBAR_WIDTH : Z := 200.
Definition COLORS_PER_ROW : Z := 5.
Definition BRUSH_SIZES : list Z := [1; 3; 5; 8; 12; 18; 25].

(** A position is a pair of integers; a colour an RGB triple. The canvas has
    no alpha channel: what [get_at] reads equals the RGB tuple with the same
    three components. *)
Abbreviation Point := (Z * Z)%type.
Abbreviation Color := (Z * Z * Z)%type.

Definition WHITE : Color := (255, 255, 255).
Definition BLACK : Color := (0, 0, 0).
Definition GRAY : Color := (200, 200, 200).
Definition LIGHT_GRAY : Color := (230, 230, 230).
Definition DARK_GRAY : Color := (100, 100, 100).
Definition RED : Color := (255, 0, 0).
Definition GREEN : Color := (0, 255, 0).
Definition BLUE : Color := (0, 120, 255).
Definition YELLOW : Color := (255, 255, 0).
Definition PURPLE : Color := (180, 0, 255).
Definition ORANGE : Color := (255, 165, 0).
Definition PINK : Color := (255, 105, 180).
Definition BROWN : Color := (165, 42, 42).
Definition CYAN : Color := (0, 255, 255).
Definition LIGHT_BLUE : Color := (173, 216, 230).
Definition LIGHT_GREEN : Color := (144, 238, 144).

Definition palette_colors : list Color :=
  [ BLACK; RED; GREEN; BLUE; YELLOW;
    PURPLE; ORANGE; PINK; BROWN; CYAN;
    LIGHT_BLUE; LIGHT_GREEN; WHITE; LIGHT_GRAY; DARK_GRAY ].

(** The six tools of the [tools] table, in the table's order. *)
Inductive Tool := pencil | eraser | line | rectangle | circle | fill.

Definition tools : list Tool := [pencil; eraser; line; rectangle; circle; fill].

#[global] Instance Tool_eq_dec : EqDecision Tool.
Proof. solve_decision. Defined.

(** ** Outcomes of a computation

    A call either returns, raises [IndexError] (a pixel access outside a
    surface), leaves the program ([sys.exit()]), or, for the bounded unrolling
    of a [while] loop, runs out of steps. *)
Inductive result (A : Type) : Type :=
  | Ok (a : A)
  | IndexError
  | SystemExit
  | OutOfFuel.
Arguments Ok {A} a.
Arguments IndexError {A}.
Arguments SystemExit {A}.
Arguments OutOfFuel {A}.

Definition result_bind {A B : Type} (f : A → result B) (m : result A) : result B :=
  match m with
  | Ok a => f a
  | IndexError => IndexError
  | SystemExit => SystemExit
  | OutOfFuel => OutOfFuel
  end.

#[global] Instance result_ret : MRet result := λ A a, Ok a.
#[global] Instance result_mbind : MBind result := λ A B f m, result_bind f m.

(** ** Surfaces

    A surface has a size and a colour per pixel. Only positions inside the size
    are observable, through [get_at]. *)
Record Surface : Type := mkSurface {
  get_width : Z;
  get_height : Z;
  pixel : Point → Color;
}.

Definition inside (s : Surface) (p : Point) : bool :=
  (0 <=? p.1) && (p.1 <? get_width s) && (0 <=? p.2) && (p.2 <? get_height s).

(** [Surface.get_at]: raises [IndexError] outside the surface. *)
Definition get_at (s : Surface) (p : Point) : result Color :=
  if inside s p then Ok (pixel s p) else IndexError.

(** [Surface.set_at], read strictly: a write outside the surface is reported
    as [IndexError] too (the PixelCanvas contract), so that a run that ends in
    [Ok] has written inside the surface only. *)
Definition set_at (s : Surface) (p : Point) (c : Color) : result Surface :=
  if inside s p
  then Ok (mkSurface (get_width s) (get_height s)
                     (λ q, if decide (q = p) then c else pixel s q))
  else IndexError.

(** [pygame.Surface((w, h))]: a new surface is black. *)
Definition new_surface (w h : Z) : Surface := mkSurface w h (λ _, BLACK).

(** [Surface.fill(color)]. *)
Definition surface_fill (s : Surface) (c : Color) : Surface :=
  mkSurface (get_width s) (get_height s) (λ _, c).

(** [Surface.copy()]. *)
Definition copy (s : Surface) : Surface := s.

(** [dst.blit(src, dest)]: the pixels of [src] land on [dst] from [dest] on. *)
Definition blit (dst src : Surface) (dest : Point) : Surface :=
  mkSurface (get_width dst) (get_height dst)
            (λ q, let q' := (q.1 - dest.1, q.2 - dest.2) in
                  if inside src q' then pixel src q' else pixel dst q).

(** Every drawing primitive of [pygame.draw] writes one colour over the pixels
    its shape covers. *)
Definition paint (s : Surface) (c : Color) (cover : Point → bool) : Surface :=
  mkSurface (get_width s) (get_height s)
            (λ q, if cover q then c else pixel s q).

(** [pygame.Rect(left, top, width, height)] and [Rect.collidepoint]. *)
Record Rect : Type := mkRect {
  rect_left : Z; rect_top : Z; rect_width : Z; rect_height : Z;
}.

Definition collidepoint (r : Rect) (p : Point) : bool :=
  (rect_left r <=? p.1) && (p.1 <? rect_left r + rect_width r) &&
  (rect_top r <=? p.2) && (p.2 <? rect_top r + rect_height r).

(** ** The rasterizer

    [pygame.draw] is not part of the repository: which pixels a line, a
    rectangle or a circle covers is a parameter of the engine. [width = 0]
    asks for a filled shape, as in pygame. *)
Class Rasterizer : Type := {
  line_pixels : Point → Point → Z → Point → bool;
  rect_pixels : Rect → Z → Point → bool;
  circle_pixels : Point → Z → Z → Point → bool;
}.

Definition pygame_draw_line `{Rasterizer}
    (s : Surface) (c : Color) (start_ end_ : Point) (width : Z) : Surface :=
  paint s c (line_pixels start_ end_ width).

Definition pygame_draw_rect `{Rasterizer}
    (s : Surface) (c : Color) (r : Rect) (width : Z) : Surface :=
  paint s c (rect_pixels r width).

Definition pygame_draw_circle `{Rasterizer}
    (s : Surface) (c : Color) (center : Point) (radius width : Z) : Surface :=
  paint s c (circle_pixels center radius width).

(** ** Program state (pybrush.py, lines 42-52)

    The module-level variables the engine reads and writes. *)
Record State : Type := mkState {
  canvas : Surface;
  drawing : bool;
  last_pos : option Point;
  current_color : Color;
  current_tool : Tool;
  brush_size : Z;
  start_pos : option Point;
  temp_surface : option Surface;
}.

Definition set_canvas (st : State) (s : Surface) : State :=
  mkState s (drawing st) (last_pos st) (current_color st) (current_tool st)
          (brush_size st) (start_pos st) (temp_surface st).
Definition set_drawing (st : State) (b : bool) : State :=
  mkState (canvas st) b (last_pos st) (current_color st) (current_tool st)
          (brush_size st) (start_pos st) (temp_surface st).
Definition set_last_pos (st : State) (p : option Point) : State :=
  mkState (canvas st) (drawing st) p (current_color st) (current_tool st)
          (brush_size st) (start_pos st) (temp_surface st).
Definition set_current_color (st : State) (c : Color) : State :=
  mkState (canvas st) (drawing st) (last_pos st) c (current_tool st)
          (brush_size st) (start_pos st) (temp_surface st).
Definition set_current_tool (st : State) (t : Tool) : State :=
  mkState (canvas st) (drawing st) (last_pos st) (current_color st) t
          (brush_size st) (start_pos st) (temp_surface st).
Definition set_brush_size (st : State) (n : Z) : State :=
  mkState (canvas st) (drawing st) (last_pos st) (current_color st) (current_tool st)
          n (start_pos st) (temp_surface st).
Definition set_start_pos (st : State) (p : option Point) : State :=
  mkState (canvas st) (drawing st) (last_pos st) (current_color st) (current_tool st)
          (brush_size st) p (temp_surface st).
Definition set_temp_surface (st : State) (t : option Surface) : State :=
  mkState (canvas st) (drawing st) (last_pos st) (current_color st) (current_tool st)
          (brush_size st) (start_pos st) t.

(** The state at start-up: a white canvas, the pencil, black, size 5. *)
Definition initial_state : State :=
  mkState (surface_fill (new_surface CANVAS_WIDTH CANVAS_HEIGHT) WHITE)
          false None BLACK pencil 5 None None.

(** ** Flood fill (pybrush.py, lines 180-202) *)

(** The variables of the [while] loop. *)
Record Flood : Type := mkFlood {
  queue : list Point;
  visited : gset Point;
  flooded : Surface;
}.

Definition directions : list (Z * Z) := [(1, 0); (-1, 0); (0, 1); (0, -1)].

(** The body of the [for dx, dy] loop. *)
Definition visit_neighbour (x y : Z) (acc : list Point * gset Point) (d : Z * Z)
    : list Point * gset Point :=
  let new_pos := (x + d.1, y + d.2) in
  if decide (new_pos ∈ acc.2) then acc
  else (acc.1 ++ [new_pos], {[new_pos]} ∪ acc.2).

Definition on_canvas (p : Point) : bool :=
  (0 <=? p.1) && (p.1 <? CANVAS_WIDTH) && (0 <=? p.2) && (p.2 <? CANVAS_HEIGHT).

(** One pass through the body of [while queue], the position [(x, y)] having
    been taken off the left end of the queue, which is now [rest]. *)
Definition fill_body (target_color new_color : Color)
    (x y : Z) (rest : list Point) (seen : gset Point) (s : Surface) : result Flood :=
  if negb (on_canvas (x, y)) then Ok (mkFlood rest seen s)
  else
    c ← get_at s (x, y);
    if decide (c = target_color) then
      s' ← set_at s (x, y) new_color;
      let qv := foldl (visit_neighbour x y) (rest, seen) directions in
      Ok (mkFlood qv.1 qv.2 s')
    else Ok (mkFlood rest seen s).

(** The [while queue] loop, unrolled at most [fuel] times. *)
Fixpoint fill_loop (fuel : nat) (target_color new_color : Color) (f : Flood)
    : result Surface :=
  match queue f with
  | [] => Ok (flooded f)
  | (x, y) :: rest =>
      match fuel with
      | O => OutOfFuel
      | S fuel' =>
          f' ← fill_body target_color new_color x y rest (visited f) (flooded f);
          fill_loop fuel' target_color new_color f'
      end
  end.

(** The positions the loop takes off the queue, in order. *)
Fixpoint dequeued (fuel : nat) (target_color new_color : Color) (f : Flood)
    : list Point :=
  match queue f, fuel with
  | (x, y) :: rest, S fuel' =>
      (x, y) ::
        match fill_body target_color new_color x y rest (visited f) (flooded f) with
        | Ok f' => dequeued fuel' target_color new_color f'
        | _ => []
        end
  | _, _ => []
  end.

(** Enough unrollings for any run: the canvas and the ring of positions
    around it. *)
Definition fill_fuel : nat := Z.to_nat ((CANVAS_WIDTH + 2) * (CANVAS_HEIGHT + 2)).

Definition fill_bucket (pos : Point) (st : State) : result State :=
  target_color ← get_at (canvas st) pos;
  if decide (target_color = current_color st) then Ok st
  else
    s ← fill_loop fill_fuel target_color (current_color st)
                  (mkFlood [pos] {[pos]} (canvas st));
    Ok (set_canvas st s).

(** ** Drawing functions (pybrush.py, lines 152-177)

    Each reads the module-level [canvas] and [current_color]. *)

(** [draw_pencil]: a filled circle of radius [size]. *)
Definition draw_pencil `{Rasterizer} (pos : Point) (size : Z) (st : State) : State :=
  set_canvas st (pygame_draw_circle (canvas st) (current_color st) pos size 0).

(** [draw_eraser]: the same in the background colour. *)
Definition draw_eraser `{Rasterizer} (pos : Point) (size : Z) (st : State) : State :=
  set_canvas st (pygame_draw_circle (canvas st) WHITE pos size 0).

Definition draw_line `{Rasterizer} (start_ end_ : Point) (size : Z) (st : State) : State :=
  set_canvas st (pygame_draw_line (canvas st) (current_color st) start_ end_ size).

(** The rectangle spanned by two corners (lines 169-170 and 368-371). *)
Definition corner_rect (start_ end_ : Point) : Rect :=
  mkRect (Z.min start_.1 end_.1) (Z.min start_.2 end_.2)
         (Z.abs (end_.1 - start_.1)) (Z.abs (end_.2 - start_.2)).

Definition draw_rectangle `{Rasterizer} (start_ end_ : Point) (size : Z) (st : State) : State :=
  set_canvas st (pygame_draw_rect (canvas st) (current_color st) (corner_rect start_ end_) size).

(** [int(math.sqrt(dx ** 2 + dy ** 2))] (lines 176 and 374-375). The argument
    is a sum of two squares of pixel distances, far below 2^52: there the
    double-precision square root, cut by [int], is the integer square root. *)
Definition circle_radius (start_ end_ : Point) : Z :=
  Z.sqrt ((end_.1 - start_.1) ^ 2 + (end_.2 - start_.2) ^ 2).

Definition draw_circle `{Rasterizer} (start_ end_ : Point) (size : Z) (st : State) : State :=
  let radius := circle_radius start_ end_ in
  set_canvas st (pygame_draw_circle (canvas st) (current_color st) start_ radius size).

(** ** Buttons (pybrush.py, lines 79-146)

    Of a button only what the engine reads: its clickable area and colour. *)
Record Button : Type := mkButton {
  btn_rect : Rect;
  btn_color : Color;
}.

Definition color_buttons : list Button :=
  imap (λ i color,
          let i := Z.of_nat i in
          let row := i `div` COLORS_PER_ROW in
          let col := i `mod` COLORS_PER_ROW in
          mkButton (mkRect (WIDTH - TOOLBAR_WIDTH + 20 + col * 35) (100 + row * 35) 30 30)
                   color)
       palette_colors.

Definition tool_buttons : list Button :=
  imap (λ i (_ : Tool),
          let i := Z.of_nat i in
          mkButton (mkRect (WIDTH - TOOLBAR_WIDTH + 20 + (i `mod` 3) * 60)
                           (250 + (i `div` 3) * 50) 50 40)
                   LIGHT_GRAY)
       tools.

Definition brush_buttons : list Button :=
  imap (λ i (_ : Z),
          let i := Z.of_nat i in
          let row := i `div` 4 in
          let col := i `mod` 4 in
          mkButton (mkRect (WIDTH - TOOLBAR_WIDTH + 20 + col * 45) (400 + row * 40) 40 30)
                   LIGHT_GRAY)
       BRUSH_SIZES.

Definition clear_button : Button :=
  mkButton (mkRect (WIDTH - TOOLBAR_WIDTH + 20) 550 160 40) LIGHT_GRAY.

(** ** Events

    The event types the loop tests for; any other type ([MOUSEMOTION] stands
    for them) takes no branch. *)
Inductive Event :=
  | QUIT
  | MOUSEBUTTONDOWN (button : Z)
  | MOUSEBUTTONUP (button : Z)
  | MOUSEMOTION.

Definition is_press (event : Event) : bool :=
  match event with MOUSEBUTTONDOWN b => b =? 1 | _ => false end.

Definition is_release (event : Event) : bool :=
  match event with MOUSEBUTTONUP b => b =? 1 | _ => false end.

(** [Button.is_clicked]. *)
Definition is_clicked (btn : Button) (pos : Point) (event : Event) : bool :=
  if is_press event then collidepoint (btn_rect btn) pos else false.

(** ** The main loop (pybrush.py, lines 210-293) *)

(** Lines 214-215: the mouse position, when it lies on the canvas. The tests
    [if canvas_mouse_pos], [if last_pos] and [start_pos and temp_surface] ask
    whether the variable is set: a pair of coordinates and a surface always
    count as true, [None] as false. *)
Definition canvas_pos (mouse_pos : Point) : option Point :=
  if on_canvas mouse_pos then Some mouse_pos else None.

(** Lines 242-253: a shape tool commits its shape over the stored canvas. *)
Definition finalize_shape `{Rasterizer} (pos : Point) (st : State) : State :=
  match current_tool st, start_pos st, temp_surface st with
  | line, Some sp, Some tmp =>
      set_temp_surface
        (draw_line sp pos (brush_size st) (set_canvas st (blit (canvas st) tmp (0, 0)))) None
  | rectangle, Some sp, Some tmp =>
      set_temp_surface
        (draw_rectangle sp pos (brush_size st) (set_canvas st (blit (canvas st) tmp (0, 0)))) None
  | circle, Some sp, Some tmp =>
      set_temp_surface
        (draw_circle sp pos (brush_size st) (set_canvas st (blit (canvas st) tmp (0, 0)))) None
  | _, _, _ => st
  end.

(** Lines 224-254: canvas interaction, taken only with the mouse on the canvas. *)
Definition canvas_interaction `{Rasterizer}
    (canvas_mouse_pos : option Point) (event : Event) (st : State) : result State :=
  match canvas_mouse_pos with
  | Some pos =>
      if is_press event then
        let st := set_start_pos (set_last_pos (set_drawing st true) (Some pos)) (Some pos) in
        match current_tool st with
        | fill => fill_bucket pos st
        | line | rectangle | circle => Ok (set_temp_surface st (Some (copy (canvas st))))
        | pencil | eraser => Ok st
        end
      else if is_release event then
        let st := set_drawing st false in
        let st := finalize_shape pos st in
        Ok (set_last_pos st None)
      else Ok st
  | None => Ok st
  end.

(** Lines 256-278: clicks on the colour, tool, size and clear buttons. The
    tool and size buttons stand in the order of [tools] and [BRUSH_SIZES]. *)
Definition button_interaction (mouse_pos : Point) (event : Event) (st : State) : State :=
  let st := foldl (λ st btn,
                     if is_clicked btn mouse_pos event
                     then set_current_color st (btn_color btn) else st)
                  st color_buttons in
  let st := foldl (λ st bt,
                     if is_clicked bt.1 mouse_pos event
                     then set_current_tool st bt.2 else st)
                  st (zip tool_buttons tools) in
  let st := foldl (λ st bs,
                     if is_clicked bs.1 mouse_pos event
                     then set_brush_size st bs.2 else st)
                  st (zip brush_buttons BRUSH_SIZES) in
  if is_clicked clear_button mouse_pos event
  then set_canvas st (surface_fill (canvas st) WHITE) else st.

(** The body of [for event in pygame.event.get()]. *)
Definition handle_event `{Rasterizer}
    (mouse_pos : Point) (event : Event) (st : State) : result State :=
  match event with
  | QUIT => SystemExit
  | _ =>
      st ← canvas_interaction (canvas_pos mouse_pos) event st;
      Ok (button_interaction mouse_pos event st)
  end.

Fixpoint handle_events `{Rasterizer}
    (mouse_pos : Point) (events : list Event) (st : State) : result State :=
  match events with
  | [] => Ok st
  | event :: events =>
      st ← handle_event mouse_pos event st;
      handle_events mouse_pos events st
  end.

(** Lines 280-293: continuous drawing for the pencil and the eraser. *)
Definition continuous_drawing `{Rasterizer}
    (canvas_mouse_pos : option Point) (st : State) : State :=
  match drawing st, canvas_mouse_pos with
  | true, Some pos =>
      match current_tool st with
      | pencil =>
          let st := match last_pos st with
                    | Some lp => draw_line lp pos (brush_size st) st
                    | None => draw_pencil pos (brush_size st) st
                    end in
          set_last_pos st (Some pos)
      | eraser =>
          let st := match last_pos st with
                    | Some lp => draw_line lp pos (brush_size st) st
                    | None => draw_eraser pos (brush_size st) st
                    end in
          set_last_pos st (Some pos)
      | _ => st
      end
  | _, _ => st
  end.

(** One turn of [while True] up to the rendering: the events of the frame,
    all handled with the mouse position polled at its start, then the
    continuous drawing. *)
Definition frame `{Rasterizer}
    (mouse_pos : Point) (events : list Event) (st : State) : result State :=
  st ← handle_events mouse_pos events st;
  Ok (continuous_drawing (canvas_pos mouse_pos) st).

(** A run of frames, each with its mouse position and events. *)
Fixpoint frames `{Rasterizer}
    (fs : list (Point * list Event)) (st : State) : result State :=
  match fs with
  | [] => Ok st
  | (mouse_pos, events) :: fs =>
      st ← frame mouse_pos events st;
      frames fs st
  end.

(** Lines 362-376: the shape preview, drawn on the display surface [screen]
    as the passes before it (lines 298-360) left it. *)
Definition render_preview `{Rasterizer}
    (mouse_pos : Point) (st : State) (screen : Surface) : Surface :=
  match drawing st, temp_surface st, start_pos st, canvas_pos mouse_pos with
  | true, Some tmp, Some sp, Some pos =>
      let screen := blit screen tmp (0, 0) in
      match current_tool st with
      | line => pygame_draw_line screen (current_color st) sp pos (brush_size st)
      | rectangle =>
          pygame_draw_rect screen (current_color st) (corner_rect sp pos) (brush_size st)
      | circle =>
          pygame_draw_circle screen (current_color st) sp (circle_radius sp pos) (brush_size st)
      | _ => screen
      end
  | _, _, _, _ => screen
  end.

(** The outline a shape tool draws from its anchor to a position. *)
Definition outline `{Rasterizer} (t : Tool) (anchor pos : Point) (size : Z) : Point → bool :=
  match t with
  | line => line_pixels anchor pos size
  | rectangle => rect_pixels (corner_rect anchor pos) size
  | circle => circle_pixels anchor (circle_radius anchor pos) size
  | pencil | eraser | fill => λ _, false
  end.

Definition is_shape_tool (t : Tool) : bool :=
  match t with line | rectangle | circle => true | _ => false end.

(** ** A reference rasterizer *)

Definition dist2 (p q : Point) : Z := (p.1 - q.1) ^ 2 + (p.2 - q.2) ^ 2.

(** Modelled from the spec: the coverage of [pygame.draw.line], which is not
    part of the repository, after section 4.3: a line of the given thickness
    between two points, here the pixels within half the thickness of the
    segment. *)
Definition spec_line (a b : Point) (thickness : Z) (p : Point) : bool :=
  let len2 := dist2 b a in
  let s := (p.1 - a.1) * (b.1 - a.1) + (p.2 - a.2) * (b.2 - a.2) in
  (1 <=? thickness) &&
  (if (len2 =? 0) || (s <=? 0) then 4 * dist2 p a <=? thickness ^ 2
   else if len2 <=? s then 4 * dist2 p b <=? thickness ^ 2
   else 4 * (dist2 p a * len2 - s ^ 2) <=? thickness ^ 2 * len2).

(** Modelled from the spec: the coverage of [pygame.draw.rect], which is not
    part of the repository, after section 4.3: the outline, of the given
    thickness, of the axis-aligned rectangle between two opposite corners;
    thickness 0 fills it. *)
Definition spec_rect (r : Rect) (thickness : Z) (p : Point) : bool :=
  let right := rect_left r + rect_width r in
  let bottom := rect_top r + rect_height r in
  (rect_left r <=? p.1) && (p.1 <=? right) && (rect_top r <=? p.2) && (p.2 <=? bottom) &&
  ((thickness =? 0) ||
   (p.1 <? rect_left r + thickness) || (right - thickness <? p.1) ||
   (p.2 <? rect_top r + thickness) || (bottom - thickness <? p.2)).

(** Modelled from the spec: the coverage of [pygame.draw.circle], which is not
    part of the repository, after section 4.3: the filled disc of the given
    radius (thickness 0), or the outline of the circle, of the given
    thickness, inside that radius. *)
Definition spec_circle (center : Point) (radius thickness : Z) (p : Point) : bool :=
  (0 <=? radius) && (dist2 p center <=? radius ^ 2) &&
  ((thickness =? 0) || (radius <=? thickness) ||
   ((radius - thickness) ^ 2 <? dist2 p center)).

Definition spec_rasterizer : Rasterizer :=
  {| line_pixels := spec_line; rect_pixels := spec_rect; circle_pixels := spec_circle |}.

(** The nearest integer to the square root of [n]. *)
Definition nearest_integer_root (n r : Z) : Prop :=
  0 <= r ∧ (2 * r - 1) ^ 2 <= 4 * n < (2 * r + 1) ^ 2.

(** The positions connected to [seed] by steps to an orthogonal neighbour, all
    on the canvas and of colour [c] on the surface [s]. *)
Definition adjacent (p q : Point) : Prop :=
  ∃ d, d ∈ directions ∧ q = (p.1 + d.1, p.2 + d.2).

Inductive connected (s : Surface) (c : Color) (seed : Point) : Point → Prop :=
  | connected_seed :
      on_canvas seed = true → pixel s seed = c → connected s c seed seed
  | connected_step p q :
      connected s c seed p → adjacent p q →
      on_canvas q = true → pixel s q = c → connected s c seed q.

(** A surface of the canvas's size. *)
Definition canvas_sized (s : Surface) : Prop :=
  get_width s = CANVAS_WIDTH ∧ get_height s = CANVAS_HEIGHT.

(** The positions of the canvas and of the ring of width one around it. *)
Definition halo : list Point :=
  cprod (seqZ (-1) (CANVAS_WIDTH + 2)) (seqZ (-1) (CANVAS_HEIGHT + 2)).

(** The positions of the canvas. *)
Definition cells : list Point :=
  cprod (seqZ 0 CANVAS_WIDTH) (seqZ 0 CANVAS_HEIGHT).

(** What holds between two passes of the flood-fill loop started at [seed] on
    the surface [s0], [done] being the positions taken off the queue so far. *)
Record flood_inv (s0 : Surface) (target_color new_color : Color) (seed : Point)
    (done : list Point) (f : Flood) : Prop := {
  inv_sized : canvas_sized (flooded f);
  inv_nodup : NoDup (done ++ queue f);
  inv_visited : ∀ p, p ∈ visited f ↔ p ∈ done ++ queue f;
  inv_halo : ∀ p, p ∈ visited f → p ∈ halo;
  inv_filled : ∀ p, p ∈ done → on_canvas p = true → pixel s0 p = target_color →
                    pixel (flooded f) p = new_color;
  inv_kept : ∀ p, pixel (flooded f) p ≠ pixel s0 p →
                  p ∈ done ∧ on_canvas p = true ∧ pixel s0 p = target_color;
  inv_connected : ∀ p, p ∈ visited f → on_canvas p = true → pixel s0 p = target_color →
                       connected s0 target_color seed p;
  inv_frontier : ∀ p q, p ∈ done → on_canvas p = true → pixel s0 p = target_color →
                        adjacent p q → q ∈ visited f;
  inv_seed : seed ∈ visited f;
}.

(** The positions [fill_bucket pos] takes off its queue, in order, when it
    enters the loop. *)
Definition fill_trace (pos : Point) (st : State) : list Point :=
  dequeued fill_fuel (pixel (canvas st) pos) (current_color st)
           (mkFlood [pos] {[pos]} (canvas st)).

(** A canvas for trying the flood fill: blue, with white pixels at (5, 5) and
    (6, 5), at (8, 5) beyond the one blue pixel (7, 5), and at (7, 6), which
    touches (6, 5) and (8, 5) by a corner only. *)
Definition islands : Surface :=
  mkSurface CANVAS_WIDTH CANVAS_HEIGHT
            (λ p, if decide (p ∈ [(5, 5); (6, 5); (8, 5); (7, 6)]) then WHITE else BLUE).

Definition filling_islands : State :=
  mkState islands false None RED fill 5 None None.

(** While the button is held the last position is known. *)
Definition gesture_inv (st : State) : Prop :=
  drawing st = true → last_pos st ≠ None.

(** The same drawing flag and last position. *)
Definition same_gesture (st st' : State) : Prop :=
  drawing st' = drawing st ∧ last_pos st' = last_pos st.

(** A button that lies to the right of the canvas. *)
Definition right_of_canvas (btn : Button) : Prop :=
  CANVAS_WIDTH <= rect_left (btn_rect btn).

(** A canvas with a single white pixel, in the corner (0, 0). *)
Definition corner_dot : Surface :=
  mkSurface CANVAS_WIDTH CANVAS_HEIGHT
            (λ p, if decide (p = (0, 0)) then WHITE else BLUE).

(** States for running the engine: the start-up state with the line tool
    selected; a line being previewed from (10, 10); the eraser being dragged
    from (10, 10) with red selected. *)
Definition line_selected : State := set_current_tool initial_state line.

Definition previewing_line : State :=
  mkState (canvas initial_state) true (Some (10, 10)) BLACK line 5
          (Some (10, 10)) (Some (canvas initial_state)).

Definition erasing_in_red : State :=
  mkState (canvas initial_state) true (Some (10, 10)) RED eraser 5 (Some (10, 10)) None.

(** The sizes and the lists of positions are never unfolded by [simpl]. *)
#[global] Arguments fill_fuel : simpl never.
#[global] Arguments CANVAS_WIDTH : simpl never.
#[global] Arguments CANVAS_HEIGHT : simpl never.
#[global] Arguments halo : simpl never.
#[global] Arguments cells : simpl never.

(** ** Further definitions for the properties of the button layout and of
    strokes *)

(** Two rectangles that share no point: one ends before the other begins,
    horizontally or vertically. *)
Definition rects_apart (r1 r2 : Rect) : bool :=
  (rect_left r1 + rect_width r1 <=? rect_left r2) ||
  (rect_left r2 + rect_width r2 <=? rect_left r1) ||
  (rect_top r1 + rect_height r1 <=? rect_top r2) ||
  (rect_top r2 + rect_height r2 <=? rect_top r1).

(** No two buttons of a list overlap. *)
Fixpoint pairwise_apart (l : list Button) : bool :=
  match l with
  | [] => true
  | b :: l =>
      forallb (λ b', rects_apart (btn_rect b) (btn_rect b')) l && pairwise_apart l
  end.

(** No button of one list overlaps a button of the other. *)
Definition groups_apart (l k : list Button) : bool :=
  forallb (λ b, forallb (λ b', rects_apart (btn_rect b) (btn_rect b')) k) l.

(** The buttons of the toolbar. *)
Definition all_buttons : list Button :=
  color_buttons ++ tool_buttons ++ brush_buttons ++ [clear_button].

(** The surface after the segments of a stroke that starts at [last] and
    goes through the positions [ps], each stroked with [pygame.draw.line]. *)
Fixpoint stroke `{Rasterizer} (c : Color) (size : Z) (last : Point) (ps : list Point)
    (s : Surface) : Surface :=
  match ps with
  | [] => s
  | p :: ps => stroke c size p ps (pygame_draw_line s c last p size)
  end.

(** Where a stroke from [last] through [ps] ends. *)
Definition stroke_end (last : Point) (ps : list Point) : Point :=
  default last (list.last ps).

(** The positions of a run of frames that lie on the canvas. *)
Definition on_canvas_positions (fs : list (Point * list Event)) : list Point :=
  filter (λ p, on_canvas p = true) (fs.*1).

(** The tools of the continuous drawing. *)
Definition is_stroke_tool (t : Tool) : bool :=
  match t with pencil | eraser => true | _ => false end.

(** The pencil held down since a press at (10, 10) on the white canvas. *)
Definition drawing_with_pencil : State :=
  mkState (canvas initial_state) true (Some (10, 10)) BLACK pencil 5 (Some (10, 10)) None.

#[global] Instance Event_eq_dec : EqDecision Event.
Proof. solve_decision. Defined.

(** The state after the line tool was pressed at (10, 10), the button
    released off the canvas and the pencil selected: the snapshot of the
    white canvas is still stored and [drawing] still set. *)
Definition stale_snapshot : State :=
  mkState (canvas initial_state) true (Some (10, 10)) BLACK pencil 5
          (Some (10, 10)) (Some (canvas initial_state)).

(** ** Notions stated apart from the code

    Adjacency, connectivity and the geometry of a shape, written down without
    the tables and formulas of [pybrush.py]; the properties compare the code
    with them. *)

(** Orthogonal adjacency, after the wording of the flood-fill property: the
    same column and rows one apart, or the same row and columns one apart. A
    diagonal neighbour, one apart in both coordinates, is not adjacent. *)
Definition orthogonal (p q : Point) : Prop :=
  (q.1 = p.1 ∧ Z.abs (q.2 - p.2) = 1) ∨ (q.2 = p.2 ∧ Z.abs (q.1 - p.1) = 1).

(** 4-connectivity, after the wording of the flood-fill property: the
    positions reached from [seed] by orthogonal steps, each on the canvas and
    of colour [c] on the surface [s]. *)
Inductive four_connected (s : Surface) (c : Color) (seed : Point) : Point → Prop :=
  | four_connected_seed :
      on_canvas seed = true → pixel s seed = c → four_connected s c seed seed
  | four_connected_step p q :
      four_connected s c seed p → orthogonal p q →
      on_canvas q = true → pixel s q = c → four_connected s c seed q.

(** A rectangle that has [a] and [b] as opposite corners: its left and right
    edges are at the two x coordinates, its top and bottom edges at the two y
    coordinates, whichever of the two points comes first. *)
Definition opposite_corners (r : Rect) (a b : Point) : Prop :=
  0 <= rect_width r ∧ 0 <= rect_height r ∧
  ((a.1 = rect_left r ∧ b.1 = rect_left r + rect_width r) ∨
   (b.1 = rect_left r ∧ a.1 = rect_left r + rect_width r)) ∧
  ((a.2 = rect_top r ∧ b.2 = rect_top r + rect_height r) ∨
   (b.2 = rect_top r ∧ a.2 = rect_top r + rect_height r)).

(** The pixels of the final outline of a shape tool from the anchor to a
    position, after the wording of the shape-gesture property: the segment
    between the two for the line tool, the rectangle with the two as opposite
    corners for the rectangle tool, and for the circle tool the circle around
    the anchor whose radius is the distance of the two, cut to an integer. *)
Definition final_outline `{Rasterizer}
    (t : Tool) (anchor pos : Point) (size : Z) (cover : Point → bool) : Prop :=
  match t with
  | line => cover = line_pixels anchor pos size
  | rectangle => ∃ r, opposite_corners r anchor pos ∧ cover = rect_pixels r size
  | circle =>
      ∃ radius, 0 <= radius ∧
                radius * radius <= dist2 pos anchor < (radius + 1) * (radius + 1) ∧
                cover = circle_pixels anchor radius size
  | pencil | eraser | fill => False
  end.

(** The positions just outside the four edges of the canvas: left and right
    of each row, above and below each column. The four corners of the
    surrounding frame are not among them. *)
Definition ring : list Point :=
  ((λ y, (-1, y)) <$> seqZ 0 CANVAS_HEIGHT) ++
  ((λ y, (CANVAS_WIDTH, y)) <$> seqZ 0 CANVAS_HEIGHT) ++
  ((λ x, (x, -1)) <$> seqZ 0 CANVAS_WIDTH) ++
  ((λ x, (x, CANVAS_HEIGHT)) <$> seqZ 0 CANVAS_WIDTH).

(** The canvas with red selected: every pixel white, the fill colour red. *)
Definition filling_white_canvas : State := set_current_color initial_state RED.

#[global] Arguments ring : simpl never.

(** * Properties *)

(** *** The flood-fill loop *)

Lemma length_cprod {A B : Type} (l : list A) (k : list B) :
  length (cprod l k) = (length l * length k)%nat.
Proof.
  induction l as [|a l IH]; [done|].
  change (cprod (a :: l) k) with ((pair a <$> k) ++ cprod l k).
  rewrite length_app, length_fmap, IH. simpl. lia.
Qed.

Lemma canvas_width_pos : 0 < CANVAS_WIDTH.
Proof. done. Qed.

Lemma canvas_height_pos : 0 < CANVAS_HEIGHT.
Proof. done. Qed.

Lemma length_halo : length halo = fill_fuel.
Proof.
  unfold halo, fill_fuel. rewrite length_cprod, !length_seqZ.
  pose proof canvas_width_pos. pose proof canvas_height_pos.
  rewrite Z2Nat.inj_mul by lia. done.
Qed.

Lemma length_cells : length cells = Z.to_nat (CANVAS_WIDTH * CANVAS_HEIGHT).
Proof.
  unfold cells. rewrite length_cprod, !length_seqZ.
  pose proof canvas_width_pos. pose proof canvas_height_pos.
  rewrite Z2Nat.inj_mul by lia. done.
Qed.

Lemma on_canvas_spec p :
  on_canvas p = true ↔ 0 <= p.1 < CANVAS_WIDTH ∧ 0 <= p.2 < CANVAS_HEIGHT.
Proof. unfold on_canvas. rewrite !andb_true_iff. lia. Qed.

Lemma elem_of_halo p :
  p ∈ halo ↔ -1 <= p.1 <= CANVAS_WIDTH ∧ -1 <= p.2 <= CANVAS_HEIGHT.
Proof. unfold halo. rewrite list_elem_of_cprod, !elem_of_seqZ. lia. Qed.

Lemma elem_of_cells p : p ∈ cells ↔ on_canvas p = true.
Proof. unfold cells. rewrite list_elem_of_cprod, !elem_of_seqZ, on_canvas_spec. lia. Qed.

Lemma adjacent_spec p q :
  adjacent p q ↔
  q = (p.1 + 1, p.2) ∨ q = (p.1 - 1, p.2) ∨ q = (p.1, p.2 + 1) ∨ q = (p.1, p.2 - 1).
Proof.
  unfold adjacent, directions. split.
  - intros (d & Hd & ->). rewrite !elem_of_cons, elem_of_nil in Hd.
    destruct Hd as [->|[->|[->|[->|[]]]]]; simpl; rewrite ?Z.add_0_r; auto.
  - intros [->|[->|[->| ->]]]; [exists (1, 0)|exists (-1, 0)|exists (0, 1)|exists (0, -1)];
      (split; [set_solver|]); simpl; f_equal; lia.
Qed.

Lemma adjacent_halo p q : on_canvas p = true → adjacent p q → q ∈ halo.
Proof.
  rewrite on_canvas_spec, adjacent_spec, elem_of_halo.
  intros Hp [->|[->|[->| ->]]]; simpl; lia.
Qed.

Lemma inside_canvas_sized s p : canvas_sized s → inside s p = on_canvas p.
Proof. intros [Hw Hh]. unfold inside, on_canvas. by rewrite Hw, Hh. Qed.

Lemma connected_on_canvas s c seed p :
  connected s c seed p → on_canvas p = true ∧ pixel s p = c.
Proof. by destruct 1. Qed.

Lemma adjacent_sym p q : adjacent p q → adjacent q p.
Proof.
  rewrite !adjacent_spec. destruct p as [x y].
  intros [->|[->|[->| ->]]]; simpl.
  - right; left. f_equal; lia.
  - left. f_equal; lia.
  - right; right; right. f_equal; lia.
  - right; right; left. f_equal; lia.
Qed.

Lemma connected_trans s c a b p :
  connected s c a b → connected s c b p → connected s c a p.
Proof.
  intros Hab. induction 1 as [|p q Hp IH Hpq Hq1 Hq2]; [done|].
  by eapply connected_step.
Qed.

Lemma connected_sym s c a b : connected s c a b → connected s c b a.
Proof.
  induction 1 as [Ha1 Ha2|p q Hp IH Hpq Hq1 Hq2]; [by constructor|].
  apply (connected_trans _ _ _ p); [|done].
  destruct (connected_on_canvas _ _ _ _ Hp) as [Hp1 Hp2].
  apply (connected_step _ _ _ q); [by constructor|by apply adjacent_sym|done..].
Qed.

(** On a canvas of one colour every position is connected to the seed: along
    the seed's row, then along the column. *)
Lemma connected_uniform s c seed p :
  on_canvas seed = true → on_canvas p = true →
  (∀ q, on_canvas q = true → pixel s q = c) →
  connected s c seed p.
Proof.
  intros Hseed Hp Hc. destruct seed as [sx sy], p as [x y].
  apply on_canvas_spec in Hseed as Hs. apply on_canvas_spec in Hp as Hp'. simpl in *.
  assert (Hrow : ∀ n x', Z.abs_nat (x' - sx) = n → 0 <= x' < CANVAS_WIDTH →
                         connected s c (sx, sy) (x', sy)).
  { induction n as [|n IH]; intros x' Hn Hx'.
    - assert (x' = sx) as -> by lia. constructor; [done|by apply Hc].
    - assert (Hon : on_canvas (x', sy) = true) by (apply on_canvas_spec; simpl; lia).
      destruct (decide (sx < x')).
      + apply (connected_step _ _ _ (x' - 1, sy)); [apply IH; lia| |done|by apply Hc].
        apply adjacent_spec. left. simpl. f_equal. lia.
      + apply (connected_step _ _ _ (x' + 1, sy)); [apply IH; lia| |done|by apply Hc].
        apply adjacent_spec. right; left. simpl. f_equal. lia. }
  assert (Hcol : ∀ n y', Z.abs_nat (y' - sy) = n → 0 <= y' < CANVAS_HEIGHT →
                         connected s c (sx, sy) (x, y')).
  { induction n as [|n IH]; intros y' Hn Hy'.
    - assert (y' = sy) as -> by lia. apply (Hrow (Z.abs_nat (x - sx))); [done|lia].
    - assert (Hon : on_canvas (x, y') = true) by (apply on_canvas_spec; simpl; lia).
      destruct (decide (sy < y')).
      + apply (connected_step _ _ _ (x, y' - 1)); [apply IH; lia| |done|by apply Hc].
        apply adjacent_spec. right; right; left. simpl. f_equal. lia.
      + apply (connected_step _ _ _ (x, y' + 1)); [apply IH; lia| |done|by apply Hc].
        apply adjacent_spec. right; right; right. simpl. f_equal. lia. }
  apply (Hcol (Z.abs_nat (y - sy))); [done|lia].
Qed.

(** The [for dx, dy] loop appends the neighbours not seen before, each once. *)
Lemma visit_neighbours x y ds q v :
  ∃ news,
    foldl (visit_neighbour x y) (q, v) ds = (q ++ news, list_to_set news ∪ v) ∧
    NoDup news ∧
    ∀ p, p ∈ news ↔ (p ∉ v) ∧ ∃ d, d ∈ ds ∧ p = (x + d.1, y + d.2).
Proof.
  revert q v. induction ds as [|d ds IH]; intros q v.
  - exists []. simpl. rewrite app_nil_r, (left_id_L ∅ (∪)). split; [done|].
    split; [constructor|]. intros p. set_solver.
  - simpl. unfold visit_neighbour at 2. simpl.
    destruct (decide ((x + d.1, y + d.2) ∈ v)) as [Hin|Hnin].
    + destruct (IH q v) as (news & -> & Hnd & Hnews). exists news.
      split; [done|]. split; [done|]. intros p. rewrite Hnews. split.
      * intros (? & d' & ? & ?). split; [done|]. exists d'. set_solver.
      * intros (Hp & d' & Hd' & ->). split; [done|]. exists d'. split; [|done].
        apply elem_of_cons in Hd' as [->|]; done.
    + destruct (IH (q ++ [(x + d.1, y + d.2)]) ({[(x + d.1, y + d.2)]} ∪ v))
        as (news & -> & Hnd & Hnews).
      exists ((x + d.1, y + d.2) :: news). split; [|split].
      * rewrite <- app_assoc. simpl. f_equal. set_solver.
      * constructor; [|done]. rewrite Hnews. set_solver.
      * intros p. rewrite elem_of_cons, Hnews. split.
        -- intros [->|(Hp & d' & Hd' & ->)].
           ++ split; [done|]. exists d. set_solver.
           ++ split; [set_solver|]. exists d'. set_solver.
        -- intros (Hp & d' & Hd' & ->).
           apply elem_of_cons in Hd' as [->|Hd']; [by left|].
           destruct (decide ((x + d'.1, y + d'.2) = (x + d.1, y + d.2))) as [->|Hne];
             [by left|right].
           split; [set_solver|]. by exists d'.
Qed.

Section Flood.
Context (s0 : Surface) (new_color : Color) (seed : Point).
Context (Hsized : canvas_sized s0) (Hseed : on_canvas seed = true).

#[local] Abbreviation target_color := (pixel s0 seed).
#[local] Abbreviation inv := (flood_inv s0 target_color new_color seed).

Lemma flood_inv_start : inv [] (mkFlood [seed] {[seed]} s0).
Proof.
  split; simpl; try done.
  - apply NoDup_singleton.
  - intros p. set_solver.
  - intros p ->%elem_of_singleton. apply elem_of_halo.
    apply on_canvas_spec in Hseed. lia.
  - intros p Hp. by apply elem_of_nil in Hp.
  - intros p ->%elem_of_singleton _ _. by constructor.
  - intros p q Hp. by apply elem_of_nil in Hp.
  - set_solver.
Qed.

(** A pass that leaves surface, queue tail and visited set as they are. *)
Lemma flood_inv_skip done p rest seen s :
  inv done (mkFlood (p :: rest) seen s) →
  (on_canvas p = true → pixel s0 p = target_color → False) →
  inv (done ++ [p]) (mkFlood rest seen s).
Proof.
  intros [Hsz Hnd Hvis Hhalo Hfill Hkept Hconn Hfront Hsd] Hskip.
  simpl in *. split; simpl.
  - done.
  - by rewrite <- app_assoc.
  - intros q. rewrite Hvis, <- app_assoc. done.
  - done.
  - intros q [Hq| ->%list_elem_of_singleton]%elem_of_app Hon Hpx; [by apply Hfill|].
    by destruct Hskip.
  - intros q Hq. destruct (Hkept q Hq) as (? & ? & ?). set_solver.
  - done.
  - intros q r [Hq| ->%list_elem_of_singleton]%elem_of_app Hon Hpx; [by apply Hfront|].
    by destruct Hskip.
  - done.
Qed.

Lemma flood_inv_fresh done p rest seen s :
  inv done (mkFlood (p :: rest) seen s) → pixel s p = pixel s0 p.
Proof.
  intros [Hsz Hnd Hvis Hhalo Hfill Hkept Hconn Hfront Hsd]. simpl in *.
  destruct (decide (pixel s p = pixel s0 p)) as [|Hne]; [done|].
  destruct (Hkept p Hne) as (Hin & _). apply NoDup_app in Hnd as (_ & Hdis & _).
  destruct (Hdis p Hin). set_solver.
Qed.

(** One pass of the loop keeps the invariant and raises no error. *)
Lemma fill_body_inv done x y rest seen s :
  inv done (mkFlood ((x, y) :: rest) seen s) →
  ∃ f', fill_body target_color new_color x y rest seen s = Ok f' ∧
        inv (done ++ [(x, y)]) f'.
Proof.
  intros Hinv. pose proof (flood_inv_fresh _ _ _ _ _ Hinv) as Hfresh.
  unfold fill_body. destruct (on_canvas (x, y)) eqn:Hon; cbn [negb].
  2:{ eexists. split; [done|]. apply flood_inv_skip; [done|]. by rewrite Hon. }
  unfold get_at, set_at. rewrite (inside_canvas_sized s) by apply Hinv.
  rewrite Hon. cbn [mbind result_mbind result_bind].
  destruct (decide (pixel s (x, y) = target_color)) as [Htc|Htc].
  2:{ eexists. split; [done|]. apply flood_inv_skip; [done|]. intros _. congruence. }
  destruct (visit_neighbours x y directions rest seen) as (news & -> & Hnd' & Hnews).
  cbn [mbind result_mbind result_bind fst snd].
  eexists. split; [done|].
  destruct Hinv as [Hsz Hnd Hvis Hhalo Hfill Hkept Hconn Hfront Hsd]. simpl in *.
  assert (Hxy : (x, y) ∈ seen) by (apply Hvis; set_solver).
  assert (Hadj : ∀ q, q ∈ news → adjacent (x, y) q).
  { intros q Hq. apply Hnews in Hq as (_ & d & Hd & ->). by exists d. }
  split; simpl.
  - done.
  - replace ((done ++ [(x, y)]) ++ rest ++ news)
      with ((done ++ (x, y) :: rest) ++ news) by (by rewrite <- !app_assoc).
    apply NoDup_app. split; [done|]. split; [|done].
    intros q Hq Hq'. apply Hnews in Hq' as [Hq' _]. by apply Hq', Hvis.
  - intros q. rewrite elem_of_union, elem_of_list_to_set, Hvis.
    rewrite <- !app_assoc. simpl. rewrite !elem_of_app, !elem_of_cons, elem_of_app.
    tauto.
  - intros q [Hq|Hq]%elem_of_union; [|by apply Hhalo].
    apply elem_of_list_to_set in Hq. by eapply adjacent_halo, Hadj.
  - intros q [Hq| ->%list_elem_of_singleton]%elem_of_app Hq1 Hq2.
    + case_decide as Heq; [done|]. by apply Hfill.
    + by rewrite decide_True.
  - intros q. case_decide as Heq.
    + subst q. intros _. split; [set_solver|]. split; [done|]. congruence.
    + intros Hq. destruct (Hkept q Hq) as (? & ? & ?). set_solver.
  - intros q [Hq|Hq]%elem_of_union; [|by apply Hconn].
    apply elem_of_list_to_set in Hq. intros Hq1 Hq2.
    apply (connected_step _ _ _ (x, y)); auto.
    apply Hconn; [done|done|congruence].
  - intros p q [Hp| ->%list_elem_of_singleton]%elem_of_app Hp1 Hp2 Hpq.
    + apply elem_of_union. right. by eapply Hfront.
    + apply elem_of_union. destruct (decide (q ∈ seen)) as [|Hq]; [by right|left].
      apply elem_of_list_to_set, Hnews. split; [done|].
      destruct Hpq as (d & Hd & ->). by exists d.
  - set_solver.
Qed.

(** The loop ends before the fuel does, and its invariant holds at the end. *)
Lemma fill_loop_inv fuel done f :
  inv done f → (length halo ≤ length done + fuel)%nat →
  ∃ s' v',
    fill_loop fuel target_color new_color f = Ok s' ∧
    inv (done ++ dequeued fuel target_color new_color f) (mkFlood [] v' s').
Proof.
  revert done f. induction fuel as [|fuel IH]; intros done [q v s] Hinv Hfuel.
  - destruct q as [|[x y] rest].
    + exists s, v. simpl. by rewrite app_nil_r.
    + exfalso. destruct Hinv as [_ Hnd Hvis Hhalo _ _ _ _ _].
      cbn [queue visited flooded] in *.
      assert (Hle : (length (done ++ (x, y) :: rest) ≤ length halo)%nat).
      { apply submseteq_length, NoDup_submseteq; [done|].
        intros p Hp. by apply Hhalo, Hvis. }
      rewrite length_app, length_cons in Hle. lia.
  - destruct q as [|[x y] rest].
    + exists s, v. simpl. by rewrite app_nil_r.
    + cbn [fill_loop dequeued queue visited flooded].
      destruct (fill_body_inv _ _ _ _ _ _ Hinv) as (f' & -> & Hinv').
      cbn [mbind result_mbind result_bind].
      destruct (IH _ f' Hinv') as (s' & v' & Hrun & Hend).
      { rewrite length_app, length_cons, length_nil. lia. }
      exists s', v'. split; [done|].
      by rewrite <- app_assoc in Hend.
Qed.

Lemma fill_loop_from_seed :
  ∃ s' v',
    fill_loop fill_fuel target_color new_color (mkFlood [seed] {[seed]} s0) = Ok s' ∧
    inv (dequeued fill_fuel target_color new_color (mkFlood [seed] {[seed]} s0))
        (mkFlood [] v' s').
Proof.
  apply (fill_loop_inv fill_fuel []); [apply flood_inv_start|].
  rewrite length_halo, length_nil. lia.
Qed.

(** At the end of the loop the connected region, and nothing else, is recoloured. *)
Lemma flood_inv_end done v' s' :
  inv done (mkFlood [] v' s') →
  (∀ p, connected s0 target_color seed p → pixel s' p = new_color) ∧
  (∀ p, ¬ connected s0 target_color seed p → pixel s' p = pixel s0 p).
Proof.
  intros [Hsz Hnd Hvis Hhalo Hfill Hkept Hconn Hfront Hsd]. simpl in *.
  setoid_rewrite app_nil_r in Hvis.
  assert (Hdone : ∀ p, connected s0 target_color seed p → p ∈ done).
  { induction 1 as [|p q Hp IH Hpq Hq1 Hq2]; [by apply Hvis|].
    apply Hvis. apply connected_on_canvas in Hp as [? ?]. by eapply Hfront. }
  split.
  - intros p Hp. destruct (connected_on_canvas _ _ _ _ Hp).
    apply Hfill; [by apply Hdone|done..].
  - intros p Hp. destruct (decide (pixel s' p = pixel s0 p)) as [|Hne]; [done|].
    destruct (Hkept p Hne) as (Hin & ? & ?). destruct Hp. apply Hconn; [|done..].
    by apply Hvis.
Qed.

End Flood.

(** *** Orthogonal steps, and the positions the loop reaches *)

(** The steps of the [directions] table are the orthogonal steps, and the
    positions the loop can connect are the 4-connected ones. *)
Lemma adjacent_orthogonal p q : adjacent p q ↔ orthogonal p q.
Proof.
  rewrite adjacent_spec. unfold orthogonal. destruct p as [x y], q as [x' y']. simpl.
  split.
  - intros [[= -> ->]|[[= -> ->]|[[= -> ->]|[= -> ->]]]]; lia.
  - intros [[-> Hy]|[-> Hx]].
    + assert (y' = y + 1 ∨ y' = y - 1) as [-> | ->] by lia; auto.
    + assert (x' = x + 1 ∨ x' = x - 1) as [-> | ->] by lia; auto.
Qed.

Lemma connected_four_connected s c seed p :
  connected s c seed p ↔ four_connected s c seed p.
Proof.
  split.
  - induction 1 as [|p q _ IH Hpq Hq1 Hq2]; [by constructor|].
    apply (four_connected_step _ _ _ p); [done| |done..]. by apply adjacent_orthogonal.
  - induction 1 as [|p q _ IH Hpq Hq1 Hq2]; [by constructor|].
    apply (connected_step _ _ _ p); [done| |done..]. by apply adjacent_orthogonal.
Qed.

(** A set of positions that holds the seed and is closed under orthogonal
    steps onto pixels of the colour [c] holds every 4-connected position. *)
Lemma four_connected_region s c seed (region : Point → Prop) p :
  region seed →
  (∀ p q, region p → orthogonal p q → on_canvas q = true → pixel s q = c → region q) →
  four_connected s c seed p → region p.
Proof. intros Hseed Hstep. induction 1; eauto. Qed.

(** The canvas and the positions just outside its edges. *)
Lemma NoDup_cprod {A B : Type} (l : list A) (k : list B) :
  NoDup l → NoDup k → NoDup (cprod l k).
Proof.
  intros Hl Hk. induction Hl as [|a l Ha _ IH]; [constructor|].
  change (cprod (a :: l) k) with ((pair a <$> k) ++ cprod l k).
  apply NoDup_app. split; [|split; [|done]].
  - apply NoDup_fmap_2; [|done]. by intros ?? [= ->].
  - intros [a' b] [b' [[= -> ->] _]]%list_elem_of_fmap [Hin _]%list_elem_of_cprod.
    by destruct Ha.
Qed.

Lemma elem_of_ring p :
  p ∈ ring ↔
  (p.1 = -1 ∧ 0 <= p.2 < CANVAS_HEIGHT) ∨ (p.1 = CANVAS_WIDTH ∧ 0 <= p.2 < CANVAS_HEIGHT) ∨
  (p.2 = -1 ∧ 0 <= p.1 < CANVAS_WIDTH) ∨ (p.2 = CANVAS_HEIGHT ∧ 0 <= p.1 < CANVAS_WIDTH).
Proof.
  unfold ring. rewrite !elem_of_app, !list_elem_of_fmap. destruct p as [x y]. simpl.
  setoid_rewrite elem_of_seqZ. split.
  - intros [(k & [= -> ->] & ?)|[(k & [= -> ->] & ?)|[(k & [= -> ->] & ?)|(k & [= -> ->] & ?)]]];
      lia.
  - intros [[-> ?]|[[-> ?]|[[-> ?]|[-> ?]]]];
      [left|right; left|right; right; left|right; right; right]; eexists; split; done || lia.
Qed.

Lemma length_ring : length ring = Z.to_nat (2 * CANVAS_WIDTH + 2 * CANVAS_HEIGHT).
Proof.
  unfold ring. rewrite !length_app, !length_fmap, !length_seqZ.
  pose proof canvas_width_pos. pose proof canvas_height_pos. lia.
Qed.

Lemma NoDup_cells_ring : NoDup (cells ++ ring).
Proof.
  pose proof canvas_width_pos. pose proof canvas_height_pos.
  apply NoDup_app. split; [|split].
  - apply NoDup_cprod; apply NoDup_seqZ.
  - intros p Hp%elem_of_cells%on_canvas_spec Hr%elem_of_ring. lia.
  - unfold ring. repeat (apply NoDup_app; split; [|split]);
      try (apply NoDup_fmap_2; [by intros ?? [= ->]|apply NoDup_seqZ]).
    all: intros [x y]; rewrite ?elem_of_app, !list_elem_of_fmap;
      setoid_rewrite elem_of_seqZ; intros (k & [= -> ->] & ?) Hin;
      repeat destruct Hin as [Hin|Hin]; destruct Hin as (k' & [= ? ?] & ?); lia.
Qed.

Lemma length_cells_ring :
  length (cells ++ ring)
    = Z.to_nat (CANVAS_WIDTH * CANVAS_HEIGHT + 2 * CANVAS_WIDTH + 2 * CANVAS_HEIGHT).
Proof.
  rewrite length_app, length_cells, length_ring.
  pose proof canvas_width_pos. pose proof canvas_height_pos. nia.
Qed.

(** A position next to a position of the canvas is on the canvas or just
    outside one of its edges. *)
Lemma adjacent_cells_ring p q :
  on_canvas p = true → adjacent p q → q ∈ cells ++ ring.
Proof.
  rewrite elem_of_app, elem_of_cells, elem_of_ring, adjacent_spec, !on_canvas_spec.
  intros Hp [->|[->|[->| ->]]]; simpl; lia.
Qed.

(** One pass of the loop puts on the queue only positions next to a position
    of the canvas, and only positions that are marked as visited. *)
Lemma fill_body_near target_color new_color x y rest seen s f' :
  fill_body target_color new_color x y rest seen s = Ok f' →
  (∀ p, p ∈ seen → p ∈ cells ++ ring) → (∀ p, p ∈ rest → p ∈ seen) →
  (∀ p, p ∈ visited f' → p ∈ cells ++ ring) ∧ (∀ p, p ∈ queue f' → p ∈ visited f').
Proof.
  intros Hrun Hseen Hrest. unfold fill_body in Hrun.
  destruct (on_canvas (x, y)) eqn:Hon; cbn [negb] in Hrun; [|by injection Hrun as <-].
  destruct (get_at s (x, y)) as [c| | |]; try done.
  cbn [mbind result_mbind result_bind] in Hrun.
  destruct (decide (c = target_color)); [|by injection Hrun as <-].
  destruct (set_at s (x, y) new_color) as [s'| | |]; try done.
  cbn [mbind result_mbind result_bind] in Hrun.
  destruct (visit_neighbours x y directions rest seen) as (news & Hfold & _ & Hnews).
  rewrite Hfold in Hrun. injection Hrun as <-. cbn [queue visited fst snd]. split.
  - intros p [Hp|Hp]%elem_of_union; [|by apply Hseen].
    apply elem_of_list_to_set, Hnews in Hp as (_ & d & Hd & ->).
    apply (adjacent_cells_ring (x, y)); [done|]. by exists d.
  - intros p [Hp|Hp]%elem_of_app; apply elem_of_union; [right; by apply Hrest|left].
    by apply elem_of_list_to_set.
Qed.

Lemma dequeued_near fuel target_color new_color f :
  (∀ p, p ∈ visited f → p ∈ cells ++ ring) → (∀ p, p ∈ queue f → p ∈ visited f) →
  ∀ p, p ∈ dequeued fuel target_color new_color f → p ∈ cells ++ ring.
Proof.
  revert f. induction fuel as [|fuel IH]; intros [q v s] Hv Hq p; cbn [queue visited] in *.
  - destruct q as [|[x y] rest]; cbn [dequeued queue]; by intros ?%elem_of_nil.
  - destruct q as [|[x y] rest]; cbn [dequeued queue visited flooded];
      [by intros ?%elem_of_nil|].
    intros [->|Hp]%elem_of_cons; [apply Hv, Hq; by left|].
    destruct (fill_body target_color new_color x y rest v s) as [f'| | |] eqn:Hbody;
      try (by apply elem_of_nil in Hp).
    destruct (fill_body_near _ _ _ _ _ _ _ _ Hbody Hv) as [Hv' Hq'].
    { intros r Hr. apply Hq. by right. }
    by apply (IH f').
Qed.

Lemma fill_trace_near st seed :
  on_canvas seed = true → ∀ p, p ∈ fill_trace seed st → p ∈ cells ++ ring.
Proof.
  intros Hseed. apply dequeued_near; cbn [queue visited].
  - intros p ->%elem_of_singleton. by apply elem_of_app; left; apply elem_of_cells.
  - intros p ->%list_elem_of_singleton. by apply elem_of_singleton.
Qed.

(** On a canvas of one colour the loop takes every position of the canvas and
    every position just outside its edges off the queue, each once. *)
Lemma fill_trace_uniform st seed :
  canvas_sized (canvas st) → on_canvas seed = true →
  (∀ q, on_canvas q = true → pixel (canvas st) q = pixel (canvas st) seed) →
  fill_trace seed st ≡ₚ cells ++ ring.
Proof.
  intros Hsz Hseed Huni.
  destruct (fill_loop_from_seed (canvas st) (current_color st) seed Hsz Hseed)
    as (s' & v' & _ & Hinv).
  fold (fill_trace seed st) in Hinv.
  destruct Hinv as [_ Hnd Hvis _ _ _ _ Hfront Hsd]. cbn [queue visited flooded] in *.
  rewrite app_nil_r in Hnd. setoid_rewrite app_nil_r in Hvis.
  assert (Hcells : ∀ p, on_canvas p = true → p ∈ fill_trace seed st).
  { intros p Hp.
    pose proof (connected_uniform (canvas st) _ seed p Hseed Hp Huni) as Hc.
    clear Hp. induction Hc as [|q r Hq IH Hqr Hr1 Hr2]; [by apply Hvis|].
    apply Hvis. apply connected_on_canvas in Hq as [? ?]. by apply (Hfront q r). }
  assert (Hnext : ∀ q r, on_canvas q = true → adjacent q r → r ∈ fill_trace seed st).
  { intros q r Hq Hqr. apply Hvis, (Hfront q r); auto. }
  apply NoDup_Permutation; [done|apply NoDup_cells_ring|].
  intros p. split; [by apply fill_trace_near|].
  intros [Hp%elem_of_cells|Hp%elem_of_ring]%elem_of_app; [by apply Hcells|].
  pose proof canvas_width_pos. pose proof canvas_height_pos.
  destruct p as [x y]. simpl in Hp. destruct Hp as [[-> ?]|[[-> ?]|[[-> ?]|[-> ?]]]].
  - apply (Hnext (0, y)); [apply on_canvas_spec; simpl; lia|].
    apply adjacent_spec. right; left. done.
  - apply (Hnext (CANVAS_WIDTH - 1, y)); [apply on_canvas_spec; simpl; lia|].
    apply adjacent_spec. left. simpl. f_equal; lia.
  - apply (Hnext (x, 0)); [apply on_canvas_spec; simpl; lia|].
    apply adjacent_spec. right; right; right. done.
  - apply (Hnext (x, CANVAS_HEIGHT - 1)); [apply on_canvas_spec; simpl; lia|].
    apply adjacent_spec. right; right; left. simpl. f_equal; lia.
Qed.

(** *** Flood fill: what it recolours, that it ends, that it stays on the canvas *)

Lemma fill_bucket_enters_loop st seed :
  canvas_sized (canvas st) → on_canvas seed = true →
  pixel (canvas st) seed ≠ current_color st →
  fill_bucket seed st =
    s ← fill_loop fill_fuel (pixel (canvas st) seed) (current_color st)
                  (mkFlood [seed] {[seed]} (canvas st));
    Ok (set_canvas st s).
Proof.
  intros Hsz Hseed Hne. unfold fill_bucket, get_at.
  rewrite inside_canvas_sized, Hseed by done.
  cbn [mbind result_mbind result_bind]. by rewrite decide_False.
Qed.

Lemma fill_bucket_returns_early st pos :
  inside (canvas st) pos = true → pixel (canvas st) pos = current_color st →
  fill_bucket pos st = Ok st.
Proof.
  intros Hin Hc. unfold fill_bucket, get_at. rewrite Hin.
  cbn [mbind result_mbind result_bind]. by rewrite decide_True.
Qed.

(** C4: for every canvas and every seed inside it (the read at the seed
    succeeds), a flood fill whose new colour is the colour read at the seed
    returns normally, not with an error, and leaves the state, and with it
    every pixel of the canvas, as it was. *)
Theorem fill_bucket_same_color_noop st pos :
  get_at (canvas st) pos = Ok (current_color st) →
  ∃ st', fill_bucket pos st = Ok st' ∧ st' = st ∧
         ∀ p, get_at (canvas st') p = get_at (canvas st) p.
Proof.
  intros Hc. exists st. split; [|done]. unfold get_at in Hc.
  destruct (inside (canvas st) pos) eqn:Hin; [|done].
  apply fill_bucket_returns_early; [done|]. congruence.
Qed.

(** C1: for every canvas and every seed on it whose colour C differs from the
    fill colour E, [fill_bucket] returns a canvas on which exactly the pixels
    4-connected to the seed, by orthogonal steps only, through pixels of
    colour C are recoloured to E: every 4-connected pixel has colour E, every
    pixel that is not, and so every pixel of another colour, is as before. In
    particular the fill does not leave a region closed under orthogonal steps
    onto colour C: what lies beyond a line of another colour, one pixel wide
    and met by a corner only, is not merged. *)
Theorem fill_bucket_fills_connected_region st seed :
  canvas_sized (canvas st) → on_canvas seed = true →
  pixel (canvas st) seed ≠ current_color st →
  ∃ st',
    fill_bucket seed st = Ok st' ∧
    (∀ p, four_connected (canvas st) (pixel (canvas st) seed) seed p →
          pixel (canvas st') p = current_color st) ∧
    (∀ p, ¬ four_connected (canvas st) (pixel (canvas st) seed) seed p →
          pixel (canvas st') p = pixel (canvas st) p) ∧
    (∀ p, pixel (canvas st) p ≠ pixel (canvas st) seed →
          pixel (canvas st') p = pixel (canvas st) p) ∧
    (∀ region : Point → Prop,
       region seed →
       (∀ p q, region p → orthogonal p q → on_canvas q = true →
               pixel (canvas st) q = pixel (canvas st) seed → region q) →
       ∀ p, ¬ region p → pixel (canvas st') p = pixel (canvas st) p) ∧
    canvas_sized (canvas st') ∧ st' = set_canvas st (canvas st').
Proof.
  intros Hsz Hseed Hne. rewrite fill_bucket_enters_loop by done.
  destruct (fill_loop_from_seed (canvas st) (current_color st) seed Hsz Hseed)
    as (s' & v' & -> & Hinv).
  destruct (flood_inv_end _ _ _ _ _ _ Hinv) as [Hin Hout].
  setoid_rewrite connected_four_connected in Hin.
  setoid_rewrite connected_four_connected in Hout.
  eexists. split; [done|]. simpl. repeat split; try done.
  - intros p Hp. apply Hout. intros Hc.
    apply connected_four_connected, connected_on_canvas in Hc as [_ ?]. done.
  - intros region Hrs Hstep p Hp. apply Hout. intros Hc. apply Hp.
    by apply (four_connected_region (canvas st) (pixel (canvas st) seed) seed).
  - apply Hinv.
  - apply Hinv.
Qed.

(** [fill_bucket] from a seed on the canvas returns a canvas of the same size. *)
Lemma fill_bucket_ok st seed :
  canvas_sized (canvas st) → on_canvas seed = true →
  ∃ st', fill_bucket seed st = Ok st' ∧ canvas_sized (canvas st').
Proof.
  intros Hsz Hseed.
  destruct (decide (pixel (canvas st) seed = current_color st)) as [Heq|Hne].
  - exists st. split; [|done]. apply fill_bucket_returns_early; [|done].
    by rewrite inside_canvas_sized.
  - rewrite fill_bucket_enters_loop by done.
    destruct (fill_loop_from_seed (canvas st) (current_color st) seed Hsz Hseed)
      as (s' & v' & -> & Hinv).
    eexists. split; [done|]. apply Hinv.
Qed.

(** C6 (as amended): for every canvas and every seed on it, [fill_bucket]
    terminates with a result; no position is taken off the queue, hence put on
    it, more than once; each is a position of the canvas or lies just outside
    one of its four edges; the positions of the canvas among them, the only
    ones whose pixel is visited, are at most width × height, and the passes
    of the loop, the skipped positions outside the edges included, at most
    width × height + 2 × width + 2 × height. *)
Theorem fill_bucket_terminates st seed :
  canvas_sized (canvas st) → on_canvas seed = true →
  (∃ st', fill_bucket seed st = Ok st') ∧
  NoDup (fill_trace seed st) ∧
  (∀ p, p ∈ fill_trace seed st → p ∈ cells ++ ring) ∧
  (length (filter (λ p, on_canvas p = true) (fill_trace seed st))
     ≤ Z.to_nat (CANVAS_WIDTH * CANVAS_HEIGHT))%nat ∧
  (length (fill_trace seed st)
     ≤ Z.to_nat (CANVAS_WIDTH * CANVAS_HEIGHT + 2 * CANVAS_WIDTH + 2 * CANVAS_HEIGHT))%nat.
Proof.
  intros Hsz Hseed.
  destruct (fill_loop_from_seed (canvas st) (current_color st) seed Hsz Hseed)
    as (s' & v' & Hrun & Hinv).
  assert (Hnd : NoDup (fill_trace seed st)).
  { destruct Hinv as [_ Hnd _ _ _ _ _ _ _]. by rewrite app_nil_r in Hnd. }
  split; [|split; [done|split; [|split]]].
  - destruct (fill_bucket_ok st seed Hsz Hseed) as (st' & ? & _). by exists st'.
  - by apply fill_trace_near.
  - rewrite <- length_cells. apply submseteq_length, NoDup_submseteq.
    + by apply NoDup_filter.
    + intros p [Hp _]%list_elem_of_filter. by apply elem_of_cells.
  - rewrite <- length_cells_ring.
    apply submseteq_length, NoDup_submseteq; [done|]. by apply fill_trace_near.
Qed.

(** C10: for every seed on the canvas, [fill_bucket] returns without an
    [IndexError]: no pixel outside the canvas is read or written. A pass of
    its loop over a position outside the canvas, which the queue may hold,
    leaves the surface alone; a pass over any position returns normally. *)
Theorem fill_bucket_stays_on_canvas st seed :
  canvas_sized (canvas st) → on_canvas seed = true →
  (∃ st', fill_bucket seed st = Ok st' ∧ canvas_sized (canvas st')) ∧
  (∀ target_color new_color x y rest seen s,
     on_canvas (x, y) = false →
     fill_body target_color new_color x y rest seen s = Ok (mkFlood rest seen s)) ∧
  (∀ target_color new_color x y rest seen s,
     canvas_sized s →
     ∃ f', fill_body target_color new_color x y rest seen s = Ok f' ∧
           canvas_sized (flooded f')).
Proof.
  intros Hsz Hseed. split; [|split].
  - by apply fill_bucket_ok.
  - intros tc nc x y rest seen s Hoff. unfold fill_body. by rewrite Hoff.
  - intros tc nc x y rest seen s Hs. unfold fill_body, get_at, set_at.
    rewrite inside_canvas_sized by done.
    destruct (on_canvas (x, y)); cbn [negb mbind result_mbind result_bind]; [|by eauto].
    destruct (decide _); cbn [mbind result_mbind result_bind]; by eauto.
Qed.

(** *** Flood fill on concrete canvases *)

Lemma fill_bucket_same_color_noop_witness :
  ∃ st', fill_bucket (3, 4) (set_current_color initial_state WHITE) = Ok st' ∧
         st' = set_current_color initial_state WHITE ∧
         ∀ p, get_at (canvas st') p = get_at (canvas (set_current_color initial_state WHITE)) p.
Proof.
  apply (fill_bucket_same_color_noop (set_current_color initial_state WHITE) (3, 4)).
  reflexivity.
Defined.

Lemma fill_bucket_fills_connected_region_witness :
  ∃ st',
    fill_bucket (5, 5) filling_islands = Ok st' ∧
    (∀ p, four_connected islands WHITE (5, 5) p → pixel (canvas st') p = RED) ∧
    (∀ p, ¬ four_connected islands WHITE (5, 5) p → pixel (canvas st') p = pixel islands p) ∧
    (∀ p, pixel islands p ≠ WHITE → pixel (canvas st') p = pixel islands p) ∧
    (∀ region : Point → Prop,
       region (5, 5) →
       (∀ p q, region p → orthogonal p q → on_canvas q = true →
               pixel islands q = WHITE → region q) →
       ∀ p, ¬ region p → pixel (canvas st') p = pixel islands p) ∧
    canvas_sized (canvas st') ∧ st' = set_canvas filling_islands (canvas st').
Proof.
  apply (fill_bucket_fills_connected_region filling_islands (5, 5));
    [split; reflexivity | reflexivity | discriminate].
Defined.

(** The scenario of the flood-fill connectivity property, run: filling from
    (5, 5) with red recolours (5, 5) and (6, 5); the separating pixel (7, 5)
    stays blue, and the white pixels beyond it, (8, 5), and at the corner,
    (7, 6), stay white. *)
Lemma fill_bucket_islands :
  match fill_bucket (5, 5) filling_islands with
  | Ok st => pixel (canvas st) <$> [(5, 5); (6, 5); (7, 5); (8, 5); (7, 6); (4, 5)]
             = [RED; RED; BLUE; WHITE; WHITE; BLUE]
  | _ => False
  end.
Proof. vm_compute. reflexivity. Qed.

Lemma fill_bucket_terminates_witness :
  (∃ st', fill_bucket (5, 5) filling_islands = Ok st') ∧
  NoDup (fill_trace (5, 5) filling_islands) ∧
  (∀ p, p ∈ fill_trace (5, 5) filling_islands → p ∈ cells ++ ring) ∧
  le (length (filter (λ p, on_canvas p = true) (fill_trace (5, 5) filling_islands)))
     (Z.to_nat (CANVAS_WIDTH * CANVAS_HEIGHT)) ∧
  le (length (fill_trace (5, 5) filling_islands))
     (Z.to_nat (CANVAS_WIDTH * CANVAS_HEIGHT + 2 * CANVAS_WIDTH + 2 * CANVAS_HEIGHT)).
Proof.
  apply (fill_bucket_terminates filling_islands (5, 5));
    [split; reflexivity | reflexivity].
Defined.

(** C6, refuted as stated: on the white canvas of 800 × 600 = 480000 pixels,
    with red selected, the fill from (0, 0) enters its loop and takes 482800
    positions off the queue, the 2800 positions just outside the four edges
    among them: more passes than width × height. *)
Lemma fill_bucket_passes_exceed_cells :
  get_at (canvas filling_white_canvas) (0, 0) = Ok WHITE ∧
  current_color filling_white_canvas = RED ∧
  CANVAS_WIDTH * CANVAS_HEIGHT = 480000 ∧
  Z.of_nat (length (fill_trace (0, 0) filling_white_canvas)) = 482800.
Proof.
  split; [reflexivity|]. split; [reflexivity|]. split; [reflexivity|].
  rewrite (Permutation_length
             (fill_trace_uniform filling_white_canvas (0, 0)
                (conj eq_refl eq_refl) eq_refl (λ _ _, eq_refl))).
  rewrite length_cells_ring. reflexivity.
Qed.

(** The queue does hold positions outside the canvas: the fill of a single
    white pixel in the corner (0, 0) takes (-1, 0) and (0, -1) off its queue. *)
Lemma fill_trace_leaves_canvas :
  fill_trace (0, 0) (mkState corner_dot false None RED fill 5 None None)
    = [(0, 0); (1, 0); (-1, 0); (0, 1); (0, -1)].
Proof. vm_compute. reflexivity. Qed.

Lemma fill_bucket_stays_on_canvas_witness :
  (∃ st', fill_bucket (5, 5) filling_islands = Ok st' ∧ canvas_sized (canvas st')) ∧
  (∀ target_color new_color x y rest seen s,
     on_canvas (x, y) = false →
     fill_body target_color new_color x y rest seen s = Ok (mkFlood rest seen s)) ∧
  (∀ target_color new_color x y rest seen s,
     canvas_sized s →
     ∃ f', fill_body target_color new_color x y rest seen s = Ok f' ∧
           canvas_sized (flooded f')).
Proof.
  apply (fill_bucket_stays_on_canvas filling_islands (5, 5));
    [split; reflexivity | reflexivity].
Defined.

(** ** The tool state machine *)

Section Engine.
Context `{R : Rasterizer}.

Lemma foldl_fixed {A B : Type} (f : A → B → A) (l : list B) (a : A) :
  Forall (λ b, ∀ a, f a b = a) l → foldl f a l = a.
Proof.
  induction 1 as [|b l Hb _ IH]; simpl; [done|]. by rewrite Hb.
Qed.

Lemma button_interaction_no_press mouse_pos event st :
  is_press event = false → button_interaction mouse_pos event st = st.
Proof.
  intros Hp. unfold button_interaction, is_clicked. rewrite Hp.
  rewrite !foldl_fixed; try done; by apply Forall_forall.
Qed.

Lemma is_clicked_on_canvas btn pos event :
  right_of_canvas btn → on_canvas pos = true → is_clicked btn pos event = false.
Proof.
  unfold right_of_canvas, on_canvas, is_clicked, collidepoint.
  intros Hb Hp. destruct (is_press event); [|done].
  apply andb_false_intro1, andb_false_intro1, andb_false_intro1. lia.
Qed.

Lemma buttons_right_of_canvas :
  Forall right_of_canvas (color_buttons ++ tool_buttons ++ brush_buttons ++ [clear_button]).
Proof. repeat constructor; by vm_compute. Qed.

Lemma button_interaction_on_canvas mouse_pos event st :
  on_canvas mouse_pos = true → button_interaction mouse_pos event st = st.
Proof.
  intros Hp. pose proof buttons_right_of_canvas as Hb.
  rewrite !Forall_app in Hb. destruct Hb as (Hc & Ht & Hb & Hx).
  unfold button_interaction.
  rewrite (is_clicked_on_canvas clear_button) by (by inversion Hx || done).
  rewrite (foldl_fixed _ color_buttons).
  2:{ eapply Forall_impl; [exact Hc|]. intros b Hr a. simpl.
      by rewrite is_clicked_on_canvas. }
  rewrite (foldl_fixed _ (zip tool_buttons tools)).
  2:{ apply Forall_forall. intros [b s] Hin a. simpl.
      rewrite is_clicked_on_canvas; [done| |done].
      apply elem_of_zip_l in Hin. by eapply Forall_forall in Ht. }
  rewrite (foldl_fixed _ (zip brush_buttons BRUSH_SIZES)); [done|].
  apply Forall_forall. intros [b s] Hin a. simpl.
  rewrite is_clicked_on_canvas; [done| |done].
  apply elem_of_zip_l in Hin. by eapply Forall_forall in Hb.
Qed.


(** *** Canvas interaction and continuous drawing *)

Lemma canvas_pos_on mouse_pos :
  on_canvas mouse_pos = true → canvas_pos mouse_pos = Some mouse_pos.
Proof. unfold canvas_pos. by intros ->. Qed.

Lemma canvas_pos_off mouse_pos :
  on_canvas mouse_pos = false → canvas_pos mouse_pos = None.
Proof. unfold canvas_pos. by intros ->. Qed.

Lemma handle_event_off_canvas mouse_pos event st :
  on_canvas mouse_pos = false → is_press event = false → event ≠ QUIT →
  handle_event mouse_pos event st = Ok st.
Proof.
  intros Hoff Hp Hq. unfold handle_event. rewrite canvas_pos_off by done. simpl.
  rewrite button_interaction_no_press by done. by destruct event.
Qed.

Lemma handle_event_motion mouse_pos st :
  handle_event mouse_pos MOUSEMOTION st = Ok st.
Proof.
  unfold handle_event, canvas_interaction.
  destruct (canvas_pos mouse_pos); simpl; by rewrite button_interaction_no_press.
Qed.

Lemma handle_events_motion mouse_pos events st :
  Forall (eq MOUSEMOTION) events → handle_events mouse_pos events st = Ok st.
Proof.
  induction 1 as [|e events He _ IH]; [done|]. subst e.
  cbn [handle_events]. by rewrite handle_event_motion.
Qed.

Lemma continuous_drawing_shape pos st :
  is_shape_tool (current_tool st) = true → continuous_drawing pos st = st.
Proof.
  unfold continuous_drawing. intros Ht.
  destruct (drawing st), pos, (current_tool st); done.
Qed.

Lemma frame_motion_shape mouse_pos events st :
  is_shape_tool (current_tool st) = true → Forall (eq MOUSEMOTION) events →
  frame mouse_pos events st = Ok st.
Proof.
  intros Ht Hev. unfold frame. rewrite handle_events_motion by done. simpl.
  by rewrite continuous_drawing_shape.
Qed.

Lemma frames_motion_shape moves st :
  is_shape_tool (current_tool st) = true →
  Forall (λ f : Point * list Event, Forall (eq MOUSEMOTION) f.2) moves →
  frames moves st = Ok st.
Proof.
  intros Ht. induction 1 as [|[pos events] moves Hev _ IH]; [done|].
  cbn [frames]. by rewrite frame_motion_shape.
Qed.

Lemma frames_app fs gs st :
  frames (fs ++ gs) st = st' ← frames fs st; frames gs st'.
Proof.
  revert st. induction fs as [|[pos events] fs IH]; intros st; [done|].
  cbn [frames app]. destruct (frame pos events st); simpl; [apply IH|done..].
Qed.

Lemma pixel_blit_self s q : pixel (blit s s (0, 0)) q = pixel s q.
Proof.
  destruct q as [x y]. simpl. rewrite !Z.sub_0_r. by destruct (inside s (x, y)).
Qed.

Lemma finalize_shape_pixels pos st anchor tmp q :
  is_shape_tool (current_tool st) = true →
  start_pos st = Some anchor → temp_surface st = Some tmp →
  pixel (canvas (finalize_shape pos st)) q =
    if outline (current_tool st) anchor pos (brush_size st) q then current_color st
    else if inside tmp q then pixel tmp q else pixel (canvas st) q.
Proof.
  intros Ht Hs Htmp. unfold finalize_shape. rewrite Hs, Htmp.
  destruct q as [x y].
  destruct (current_tool st); try done; simpl; by rewrite !Z.sub_0_r.
Qed.

(** *** The radius of the circle tool *)

Lemma circle_radius_floor start_ end_ :
  let r := circle_radius start_ end_ in
  0 <= r ∧ r * r <= dist2 end_ start_ < (r + 1) * (r + 1).
Proof.
  simpl. unfold circle_radius, dist2.
  set (n := (end_.1 - start_.1) ^ 2 + (end_.2 - start_.2) ^ 2).
  assert (0 <= n) by (unfold n; nia).
  pose proof (Z.sqrt_spec n ltac:(done)) as Hs. pose proof (Z.sqrt_nonneg n).
  unfold Z.succ in Hs. lia.
Qed.

(** C9 (as amended): [draw_circle] draws the outline of the circle centered at
    the anchor whose radius is the Euclidean distance from the center to the
    edge point truncated to an integer: the largest [r] with
    [r * r <= dx ^ 2 + dy ^ 2]. *)
Theorem draw_circle_radius_truncated start_ end_ size st :
  let r := circle_radius start_ end_ in
  draw_circle start_ end_ size st
    = set_canvas st (paint (canvas st) (current_color st) (circle_pixels start_ r size)) ∧
  0 <= r ∧ r * r <= dist2 end_ start_ < (r + 1) * (r + 1).
Proof. split; [done|]. apply circle_radius_floor. Qed.

(** *** A release outside the canvas *)

(** C8: what the code does with a release that arrives while the pointer is
    outside the canvas bounds, a gesture active or not: nothing. The release
    branch is not reached, so the frame returns the state it was given: the
    drawing flag stays set, the anchor, the last position and the snapshot
    stay stored, and nothing is committed to the canvas. The gesture is not
    finalized at the last position on the canvas. *)
Theorem release_off_canvas_ignored mouse_pos button st :
  on_canvas mouse_pos = false →
  frame mouse_pos [MOUSEBUTTONUP button] st = Ok st.
Proof.
  intros Hpos. unfold frame. cbn [handle_events].
  rewrite handle_event_off_canvas by done.
  simpl. rewrite canvas_pos_off by done.
  unfold continuous_drawing. by destruct (drawing st).
Qed.

(** A release with the pointer on the canvas does end the gesture. *)
Lemma release_on_canvas_ends_gesture mouse_pos st :
  on_canvas mouse_pos = true →
  ∃ st', frame mouse_pos [MOUSEBUTTONUP 1] st = Ok st' ∧
         drawing st' = false ∧ last_pos st' = None.
Proof.
  intros Hpos. unfold frame. cbn [handle_events]. unfold handle_event.
  rewrite canvas_pos_on by done. simpl.
  rewrite button_interaction_on_canvas by done.
  eexists. split; [done|]. unfold continuous_drawing, finalize_shape. simpl.
  by destruct (current_tool st), (start_pos st), (temp_surface st).
Qed.

(** *** Shape gestures *)

Lemma press_shape pos st :
  is_shape_tool (current_tool st) = true → on_canvas pos = true →
  frame pos [MOUSEBUTTONDOWN 1] st
    = Ok (mkState (canvas st) true (Some pos) (current_color st) (current_tool st)
                  (brush_size st) (Some pos) (Some (canvas st))).
Proof.
  intros Ht Hpos. unfold frame. cbn [handle_events]. unfold handle_event.
  rewrite canvas_pos_on by done. unfold canvas_interaction.
  cbn [is_press Z.eqb Pos.eqb]. cbn [set_drawing set_last_pos set_start_pos current_tool].
  destruct (current_tool st) eqn:Htool; try done; simpl;
    rewrite button_interaction_on_canvas by done; simpl;
    unfold continuous_drawing; simpl; rewrite Htool;
    unfold set_temp_surface, copy; simpl; by rewrite Htool.
Qed.

Lemma release_shape pos st anchor tmp :
  is_shape_tool (current_tool st) = true → on_canvas pos = true →
  start_pos st = Some anchor → temp_surface st = Some tmp →
  ∃ st', frame pos [MOUSEBUTTONUP 1] st = Ok st' ∧
         canvas st' = canvas (finalize_shape pos st) ∧
         drawing st' = false ∧ temp_surface st' = None.
Proof.
  intros Ht Hpos Hs Htmp. unfold frame. cbn [handle_events]. unfold handle_event.
  rewrite canvas_pos_on by done. simpl.
  rewrite button_interaction_on_canvas by done. simpl.
  eexists. split; [done|]. unfold continuous_drawing, finalize_shape. simpl.
  rewrite Hs, Htmp. by destruct (current_tool st).
Qed.

(** What the code draws for a shape tool is the outline between the two
    points: [corner_rect] has them as opposite corners, [circle_radius] is
    their distance cut to an integer. *)
Lemma corner_rect_opposite_corners a b : opposite_corners (corner_rect a b) a b.
Proof. unfold opposite_corners, corner_rect. simpl. lia. Qed.

Lemma outline_final_outline t anchor pos size :
  is_shape_tool t = true → final_outline t anchor pos size (outline t anchor pos size).
Proof.
  destruct t; try done; intros _; simpl.
  - exists (corner_rect anchor pos). split; [apply corner_rect_opposite_corners|done].
  - exists (circle_radius anchor pos).
    destruct (circle_radius_floor anchor pos) as [? ?]. done.
Qed.

(** C3 (as amended): for a shape tool (line, rectangle, circle), a press on
    the canvas, any number of preview moves (frames whose events are motions,
    the pointer anywhere) and a release with the pointer on the canvas end in
    a canvas that is the canvas at the press with only the final outline
    drawn over it: the segment from the anchor to the release position, the
    rectangle with the two as opposite corners, or the circle around the
    anchor with their distance, cut to an integer, as radius. No preview
    leaves a pixel behind; the gesture and its snapshot are cleared. *)
Theorem shape_gesture_commits_final_outline st anchor moves pos :
  is_shape_tool (current_tool st) = true →
  on_canvas anchor = true → on_canvas pos = true →
  Forall (λ f : Point * list Event, Forall (eq MOUSEMOTION) f.2) moves →
  ∃ st' cover,
    frames ((anchor, [MOUSEBUTTONDOWN 1]) :: moves ++ [(pos, [MOUSEBUTTONUP 1])]) st = Ok st' ∧
    final_outline (current_tool st) anchor pos (brush_size st) cover ∧
    (∀ q, pixel (canvas st') q = if cover q then current_color st else pixel (canvas st) q) ∧
    get_width (canvas st') = get_width (canvas st) ∧
    get_height (canvas st') = get_height (canvas st) ∧
    drawing st' = false ∧ temp_surface st' = None.
Proof.
  intros Ht Ha Hpos Hmoves. cbn [frames].
  rewrite press_shape by done. cbn [mbind result_mbind result_bind].
  set (st1 := mkState _ _ _ _ _ _ _ _).
  rewrite frames_app, frames_motion_shape by done.
  cbn [mbind result_mbind result_bind frames].
  destruct (release_shape pos st1 anchor (canvas st)) as (st' & -> & Hc & Hd & Htmp); try done.
  exists st', (outline (current_tool st) anchor pos (brush_size st)).
  split; [done|]. split; [by apply outline_final_outline|].
  rewrite Hc. split; [|split; [|split]]; try done.
  - intros q. rewrite (finalize_shape_pixels pos st1 anchor (canvas st)) by done.
    simpl. by destruct (inside (canvas st) q).
  - unfold finalize_shape. simpl. by destruct (current_tool st).
  - unfold finalize_shape. simpl. by destruct (current_tool st).
Qed.

(** C7 (as amended): on a pointer-move while a shape is previewed, the frame
    leaves the canvas, and the whole state, untouched; the rendering pass
    blits the snapshot onto the display surface and rasterizes the outline
    from the anchor to the current position onto the display surface, which
    then shows the snapshot plus the current preview outline. *)
Theorem preview_drawn_on_screen st tmp anchor mouse_pos events screen :
  drawing st = true → temp_surface st = Some tmp → start_pos st = Some anchor →
  is_shape_tool (current_tool st) = true → on_canvas mouse_pos = true →
  Forall (eq MOUSEMOTION) events →
  frame mouse_pos events st = Ok st ∧
  ∀ q, pixel (render_preview mouse_pos st screen) q =
         if outline (current_tool st) anchor mouse_pos (brush_size st) q
         then current_color st
         else if inside tmp q then pixel tmp q else pixel screen q.
Proof.
  intros Hd Htmp Hs Ht Hpos Hev. split; [by apply frame_motion_shape|].
  intros [x y]. unfold render_preview. rewrite Hd, Htmp, Hs, canvas_pos_on by done.
  destruct (current_tool st); try done; simpl; by rewrite !Z.sub_0_r.
Qed.

(** *** Pencil and eraser *)

(** C2: while drawing with the eraser, a move to a position on the canvas
    strokes the segment from the last position in [current_color], the
    selected draw colour, whatever it is. *)
Theorem eraser_drag_draws_current_color st lp pos events :
  drawing st = true → current_tool st = eraser → last_pos st = Some lp →
  on_canvas pos = true → Forall (eq MOUSEMOTION) events →
  ∃ st', frame pos events st = Ok st' ∧
         canvas st' = paint (canvas st) (current_color st) (line_pixels lp pos (brush_size st)) ∧
         last_pos st' = Some pos.
Proof.
  intros Hd Ht Hl Hpos Hev. unfold frame. rewrite handle_events_motion by done.
  cbn [mbind result_mbind result_bind]. eexists. split; [done|].
  unfold continuous_drawing. rewrite Hd, canvas_pos_on, Ht, Hl by done. done.
Qed.

(** C5: a press of the pencil at a position of the canvas and a release there
    in the next frame leave the canvas with the zero-length segment
    [pygame.draw.line(canvas, current_color, pos, pos, brush_size)] stroked on
    it; when both events fall into one frame the canvas is not drawn on. *)
Theorem pencil_click_strokes_segment st pos :
  current_tool st = pencil → on_canvas pos = true →
  (∃ st', frames [(pos, [MOUSEBUTTONDOWN 1]); (pos, [MOUSEBUTTONUP 1])] st = Ok st' ∧
          canvas st' = paint (canvas st) (current_color st)
                             (line_pixels pos pos (brush_size st))) ∧
  (∃ st', frame pos [MOUSEBUTTONDOWN 1; MOUSEBUTTONUP 1] st = Ok st' ∧
          canvas st' = canvas st).
Proof.
  intros Ht Hpos. destruct st as [cv dr lp col tool size sp tmp].
  simpl in Ht. subst tool. split.
  - cbn [frames]. unfold frame. cbn [handle_events]. unfold handle_event.
    rewrite canvas_pos_on by done. unfold canvas_interaction.
    cbn [is_press is_release Z.eqb Pos.eqb].
    cbn [set_drawing set_last_pos set_start_pos current_tool].
    cbn [mbind result_mbind result_bind].
    rewrite !button_interaction_on_canvas by done.
    cbn [mbind result_mbind result_bind].
    eexists. split; [done|]. done.
  - unfold frame. cbn [handle_events]. unfold handle_event.
    rewrite canvas_pos_on by done. unfold canvas_interaction.
    cbn [is_press is_release Z.eqb Pos.eqb].
    cbn [set_drawing set_last_pos set_start_pos current_tool].
    cbn [mbind result_mbind result_bind].
    rewrite !button_interaction_on_canvas by done.
    cbn [mbind result_mbind result_bind].
    eexists. split; [done|]. done.
Qed.

(** *** The last position during a gesture *)

Lemma foldl_same_gesture {B : Type} (f : State → B → State) (l : list B) st :
  (∀ st' b, same_gesture st' (f st' b)) → same_gesture st (foldl f st l).
Proof.
  intros Hf. revert st. induction l as [|b l IH]; intros st; simpl; [done|].
  unfold same_gesture in *. destruct (IH (f st b)) as [-> ->]. apply Hf.
Qed.

Lemma button_interaction_same_gesture mouse_pos event st :
  same_gesture st (button_interaction mouse_pos event st).
Proof.
  unfold button_interaction.
  set (st1 := foldl _ st color_buttons).
  set (st2 := foldl _ st1 (zip tool_buttons tools)).
  set (st3 := foldl _ st2 (zip brush_buttons BRUSH_SIZES)).
  assert (H1 : same_gesture st st1).
  { apply foldl_same_gesture. intros st' b. by destruct (is_clicked _ _ _). }
  assert (H2 : same_gesture st1 st2).
  { apply foldl_same_gesture. intros st' b. by destruct (is_clicked _ _ _). }
  assert (H3 : same_gesture st2 st3).
  { apply foldl_same_gesture. intros st' b. by destruct (is_clicked _ _ _). }
  unfold same_gesture in *.
  destruct H1 as [<- <-], H2 as [<- <-], H3 as [<- <-].
  by destruct (is_clicked _ _ _).
Qed.

Lemma fill_bucket_same_gesture pos st st' :
  fill_bucket pos st = Ok st' → same_gesture st st'.
Proof.
  unfold fill_bucket. destruct (get_at (canvas st) pos) as [c| | |]; try done.
  cbn [mbind result_mbind result_bind]. destruct (decide _); [by intros [= <-]|].
  destruct (fill_loop _ _ _ _) as [s| | |]; try done.
  cbn [mbind result_mbind result_bind]. by intros [= <-].
Qed.

Lemma handle_event_gesture_inv mouse_pos event st st' :
  gesture_inv st → handle_event mouse_pos event st = Ok st' → gesture_inv st'.
Proof.
  intros Hinv.
  destruct event as [|b|b|];
    [done| | |rewrite handle_event_motion; by intros [= <-]]; unfold handle_event.
  - destruct (canvas_interaction _ _ st) as [st1| | |] eqn:Hci; try done.
    cbn [mbind result_mbind result_bind]. intros [= <-].
    destruct (button_interaction_same_gesture mouse_pos (MOUSEBUTTONDOWN b) st1) as [Hd Hl].
    unfold gesture_inv. rewrite Hd, Hl. revert Hci. unfold canvas_interaction.
    destruct (canvas_pos mouse_pos) as [pos|]; [|by intros [= <-]].
    destruct (is_press _); [|by intros [= <-]].
    destruct st as [cv dr lp col tool size sp tmp]. simpl.
    destruct tool; try (by intros [= <-]).
    intros [Hd' Hl']%fill_bucket_same_gesture. simpl in *. by rewrite Hl'.
  - destruct (canvas_interaction _ _ st) as [st1| | |] eqn:Hci; try done.
    cbn [mbind result_mbind result_bind]. intros [= <-].
    destruct (button_interaction_same_gesture mouse_pos (MOUSEBUTTONUP b) st1) as [Hd Hl].
    unfold gesture_inv. rewrite Hd, Hl. revert Hci. unfold canvas_interaction.
    destruct (canvas_pos mouse_pos) as [pos|]; [|by intros [= <-]].
    cbn [is_press]. destruct (is_release _); [|by intros [= <-]].
    destruct st as [cv dr lp col tool size sp tmp]. unfold finalize_shape. simpl.
    intros [= <-]. by destruct tool, sp, tmp.
Qed.

Lemma continuous_drawing_gesture_inv pos st :
  gesture_inv st → gesture_inv (continuous_drawing pos st).
Proof.
  unfold continuous_drawing, gesture_inv.
  destruct st as [cv dr lp col tool size sp tmp]. simpl.
  destruct dr, pos, tool; simpl; try done; by destruct lp.
Qed.

Lemma frame_gesture_inv mouse_pos events st st' :
  gesture_inv st → frame mouse_pos events st = Ok st' → gesture_inv st'.
Proof.
  unfold frame. intros Hinv Hrun.
  destruct (handle_events mouse_pos events st) as [st1| | |] eqn:Hev; try done.
  cbn [mbind result_mbind result_bind] in Hrun. injection Hrun as <-.
  apply continuous_drawing_gesture_inv. clear -Hinv Hev.
  revert st Hinv Hev. induction events as [|e events IH]; intros st Hinv; simpl.
  - by intros [= <-].
  - destruct (handle_event mouse_pos e st) as [st2| | |] eqn:He; try done.
    cbn [mbind result_mbind result_bind]. apply IH.
    by eapply handle_event_gesture_inv.
Qed.

(** From start-up on, [drawing] is set only together with [last_pos]. *)
Lemma frames_gesture_inv fs st' :
  frames fs initial_state = Ok st' → gesture_inv st'.
Proof.
  assert (Hgen : ∀ st, gesture_inv st → frames fs st = Ok st' → gesture_inv st').
  { induction fs as [|[pos events] fs IH]; intros st Hinv; cbn [frames].
    - by intros [= <-].
    - destruct (frame pos events st) as [st1| | |] eqn:Hf; try done.
      cbn [mbind result_mbind result_bind]. apply IH. by eapply frame_gesture_inv. }
  apply Hgen. by intros ?.
Qed.

(** So the dot branches of the continuous drawing are never taken: with the
    invariant, pencil and eraser alike stroke a segment in [current_color]. *)
Lemma continuous_drawing_strokes_segment pos st :
  gesture_inv st → drawing st = true →
  current_tool st = pencil ∨ current_tool st = eraser →
  ∃ lp, last_pos st = Some lp ∧
        continuous_drawing (Some pos) st
          = set_last_pos (draw_line lp pos (brush_size st) st) (Some pos).
Proof.
  intros Hinv Hd Ht. unfold continuous_drawing. rewrite Hd.
  destruct (last_pos st) as [lp|] eqn:Hl; [|by destruct (Hinv Hd)].
  exists lp. split; [done|]. by destruct Ht as [-> | ->].
Qed.

(** *** The engine never fails *)

Lemma foldl_invariant {B : Type} (P : State → Prop) (f : State → B → State)
    (l : list B) st :
  (∀ st' b, P st' → P (f st' b)) → P st → P (foldl f st l).
Proof.
  intros Hf. revert st. induction l as [|b l IH]; intros st Hst; simpl; auto.
Qed.

Lemma button_interaction_canvas_sized mouse_pos event st :
  canvas_sized (canvas st) →
  canvas_sized (canvas (button_interaction mouse_pos event st)).
Proof.
  intros Hsz. unfold button_interaction.
  set (st1 := foldl _ st color_buttons).
  set (st2 := foldl _ st1 (zip tool_buttons tools)).
  set (st3 := foldl _ st2 (zip brush_buttons BRUSH_SIZES)).
  assert (H3 : canvas_sized (canvas st3)).
  { repeat (apply (foldl_invariant (λ s, canvas_sized (canvas s)));
            [intros st' b Hst'; by destruct (is_clicked _ _ _)|]).
    done. }
  by destruct (is_clicked _ _ _).
Qed.

Lemma finalize_shape_canvas_sized pos st :
  canvas_sized (canvas st) → canvas_sized (canvas (finalize_shape pos st)).
Proof.
  intros Hsz. unfold finalize_shape.
  by destruct (current_tool st), (start_pos st), (temp_surface st).
Qed.

Lemma continuous_drawing_canvas_sized pos st :
  canvas_sized (canvas st) → canvas_sized (canvas (continuous_drawing pos st)).
Proof.
  intros Hsz. unfold continuous_drawing.
  by destruct (drawing st), pos, (current_tool st), (last_pos st).
Qed.

Lemma canvas_interaction_ok mouse_pos event st :
  canvas_sized (canvas st) →
  ∃ st', canvas_interaction (canvas_pos mouse_pos) event st = Ok st' ∧
         canvas_sized (canvas st').
Proof.
  intros Hsz. unfold canvas_interaction, canvas_pos.
  destruct (on_canvas mouse_pos) eqn:Hon; [|by eauto].
  destruct (is_press event).
  - set (st1 := set_start_pos _ _).
    assert (Hsz1 : canvas_sized (canvas st1)) by done.
    destruct (current_tool st1); try by eauto.
    by apply fill_bucket_ok.
  - destruct (is_release event); [|by eauto].
    eexists. split; [done|]. by apply finalize_shape_canvas_sized.
Qed.

Lemma handle_events_ok mouse_pos events st :
  canvas_sized (canvas st) → QUIT ∉ events →
  ∃ st', handle_events mouse_pos events st = Ok st' ∧ canvas_sized (canvas st').
Proof.
  revert st. induction events as [|e events IH]; intros st Hsz Hq; [by eauto|].
  apply not_elem_of_cons in Hq as [He Hq]. cbn [handle_events].
  destruct (canvas_interaction_ok mouse_pos e st Hsz) as (st1 & Hci & Hsz1).
  assert (Hhe : handle_event mouse_pos e st = Ok (button_interaction mouse_pos e st1)).
  { unfold handle_event. rewrite Hci. by destruct e. }
  rewrite Hhe. cbn [mbind result_mbind result_bind].
  apply IH; [|done]. by apply button_interaction_canvas_sized.
Qed.

(** Whatever the mouse positions and the events, short of [QUIT], a run of
    frames returns, with a canvas of the size it had: no pixel access of the
    engine leaves a surface, and no flood fill is cut short. *)
Lemma frames_ok fs st :
  canvas_sized (canvas st) →
  Forall (λ f : Point * list Event, QUIT ∉ f.2) fs →
  ∃ st', frames fs st = Ok st' ∧ canvas_sized (canvas st').
Proof.
  intros Hsz Hfs. revert st Hsz.
  induction Hfs as [|[pos events] fs Hq _ IH]; intros st Hsz; [by eauto|].
  cbn [frames]. unfold frame.
  destruct (handle_events_ok pos events st Hsz Hq) as (st1 & -> & Hsz1).
  cbn [mbind result_mbind result_bind].
  apply IH. by apply continuous_drawing_canvas_sized.
Qed.

End Engine.

(** ** The engine on concrete inputs, with the reference rasterizer *)

Section Concrete.
#[local] Existing Instance spec_rasterizer.

Lemma shape_gesture_commits_final_outline_witness :
  ∃ st' cover,
    frames ((1, 1, [MOUSEBUTTONDOWN 1])
              :: [(3, 3, [MOUSEMOTION]); (900, 10, [MOUSEMOTION; MOUSEMOTION]); (2, 5, [])]
              ++ [(4, 4, [MOUSEBUTTONUP 1])])
           (set_current_tool initial_state rectangle) = Ok st' ∧
    final_outline rectangle (1, 1) (4, 4) 5 cover ∧
    (∀ q, pixel (canvas st') q =
            if cover q then BLACK else pixel (canvas initial_state) q) ∧
    get_width (canvas st') = CANVAS_WIDTH ∧ get_height (canvas st') = CANVAS_HEIGHT ∧
    drawing st' = false ∧ temp_surface st' = None.
Proof.
  apply (shape_gesture_commits_final_outline
           (set_current_tool initial_state rectangle) (1, 1)
           [(3, 3, [MOUSEMOTION]); (900, 10, [MOUSEMOTION; MOUSEMOTION]); (2, 5, [])] (4, 4));
    [reflexivity | reflexivity | reflexivity | repeat constructor].
Defined.

(** C3, refuted as stated: the line tool is pressed at (10, 10), the pointer
    moves to (30, 10) and the button is released at (850, 300), outside the
    canvas. The anchor pixel (10, 10), which the outline to the release
    position covers, as does the outline to the last position on the canvas,
    is still white: no final outline is on the canvas, and the gesture and
    its snapshot are not cleared. *)
Lemma shape_release_off_canvas_commits_nothing :
  match frames [(10, 10, [MOUSEBUTTONDOWN 1]); (30, 10, [MOUSEMOTION]);
                (850, 300, [MOUSEBUTTONUP 1])]
               line_selected with
  | Ok st =>
      on_canvas (850, 300) = false ∧
      get_at (canvas st) (10, 10) = Ok WHITE ∧
      get_at (pygame_draw_line (canvas line_selected) BLACK (10, 10) (850, 300) 5)
             (10, 10) = Ok BLACK ∧
      get_at (pygame_draw_line (canvas line_selected) BLACK (10, 10) (30, 10) 5)
             (10, 10) = Ok BLACK ∧
      drawing st = true ∧ temp_surface st ≠ None
  | _ => False
  end.
Proof. vm_compute. done. Qed.

Lemma preview_drawn_on_screen_witness :
  frame (20, 10) [MOUSEMOTION] previewing_line = Ok previewing_line ∧
  ∀ q, pixel (render_preview (20, 10) previewing_line (new_surface WIDTH HEIGHT)) q =
         if outline line (10, 10) (20, 10) 5 q then BLACK
         else if inside (canvas initial_state) q then pixel (canvas initial_state) q
              else pixel (new_surface WIDTH HEIGHT) q.
Proof.
  apply (preview_drawn_on_screen previewing_line (canvas initial_state) (10, 10) (20, 10)
           [MOUSEMOTION] (new_surface WIDTH HEIGHT));
    [reflexivity | reflexivity | reflexivity | reflexivity | reflexivity | repeat constructor].
Defined.

(** C7, refuted as stated: after a press with the line tool at (10, 10) and a
    move to (20, 10), the pixel (20, 10) of the canvas is still white, as in
    the snapshot, although the preview outline, drawn in black, covers it. *)
Lemma preview_move_leaves_canvas_untouched :
  match frames [(10, 10, [MOUSEBUTTONDOWN 1]); (20, 10, [MOUSEMOTION])] line_selected with
  | Ok st =>
      match temp_surface st with
      | Some snapshot =>
          get_at (canvas st) (20, 10) = Ok WHITE ∧
          get_at (pygame_draw_line snapshot (current_color st) (10, 10) (20, 10) (brush_size st))
                 (20, 10) = Ok BLACK
      | None => False
      end
  | _ => False
  end.
Proof. vm_compute. done. Qed.

Lemma release_off_canvas_ignored_witness :
  on_canvas (850, 300) = false ∧
  frame (850, 300) [MOUSEBUTTONUP 1] previewing_line = Ok previewing_line.
Proof.
  split; [reflexivity|].
  apply (release_off_canvas_ignored (850, 300) 1 previewing_line). reflexivity.
Defined.

(** The release of C8, run: the line tool is pressed at (10, 10), the pointer
    leaves the canvas and the button is released at (850, 300); afterwards
    [drawing] is still set with the button up, the snapshot is still stored,
    and no line was committed at the last position on the canvas. *)
Lemma release_off_canvas_keeps_gesture :
  match frames [(10, 10, [MOUSEBUTTONDOWN 1]); (30, 10, [MOUSEMOTION]);
                (850, 300, [MOUSEMOTION]); (850, 300, [MOUSEBUTTONUP 1])]
               line_selected with
  | Ok st =>
      drawing st = true ∧ start_pos st = Some (10, 10) ∧
      temp_surface st ≠ None ∧
      get_at (canvas st) (30, 10) = Ok WHITE
  | _ => False
  end.
Proof. vm_compute. done. Qed.

(** C9, refuted as stated: from the center (0, 0) to the edge point (2, 2) the
    distance is the square root of 8, about 2.83; the nearest integer is 3,
    and [draw_circle] draws with radius 2. *)
Lemma circle_radius_not_rounded :
  draw_circle (0, 0) (2, 2) 1 initial_state
    = set_canvas initial_state
        (pygame_draw_circle (canvas initial_state) BLACK (0, 0) 2 1) ∧
  nearest_integer_root (dist2 (2, 2) (0, 0)) 3 ∧
  ¬ nearest_integer_root (dist2 (2, 2) (0, 0)) (circle_radius (0, 0) (2, 2)).
Proof.
  split; [reflexivity|]. split.
  - unfold nearest_integer_root. vm_compute. done.
  - unfold nearest_integer_root. vm_compute. intros [_ [_ H]]. done.
Qed.

Lemma eraser_drag_draws_current_color_witness :
  ∃ st', frame (20, 10) [MOUSEMOTION] erasing_in_red = Ok st' ∧
         canvas st' = paint (canvas initial_state) RED (line_pixels (10, 10) (20, 10) 5) ∧
         last_pos st' = Some (20, 10).
Proof.
  apply (eraser_drag_draws_current_color erasing_in_red (10, 10) (20, 10) [MOUSEMOTION]);
    [reflexivity | reflexivity | reflexivity | reflexivity | repeat constructor].
Defined.

(** The eraser drag of C2, run: after the drag the pixel
    (20, 10), white before, is red. *)
Lemma eraser_drag_paints_red :
  match frame (20, 10) [MOUSEMOTION] erasing_in_red with
  | Ok st => get_at (canvas erasing_in_red) (20, 10) = Ok WHITE ∧
             get_at (canvas st) (20, 10) = Ok RED
  | _ => False
  end.
Proof. vm_compute. done. Qed.

Lemma pencil_click_strokes_segment_witness :
  (∃ st', frames [(100, 100, [MOUSEBUTTONDOWN 1]); (100, 100, [MOUSEBUTTONUP 1])]
                 initial_state = Ok st' ∧
          canvas st' = paint (canvas initial_state) BLACK
                             (line_pixels (100, 100) (100, 100) 5)) ∧
  (∃ st', frame (100, 100) [MOUSEBUTTONDOWN 1; MOUSEBUTTONUP 1] initial_state = Ok st' ∧
          canvas st' = canvas initial_state).
Proof.
  apply (pencil_click_strokes_segment initial_state (100, 100)); reflexivity.
Defined.

(** The pencil click of C5, run: the pixel (100, 104) lies in the
    disc of radius 5 around (100, 100) that [draw_pencil] would fill, and is
    still white after the click. *)
Lemma pencil_click_is_no_disc :
  match frames [(100, 100, [MOUSEBUTTONDOWN 1]); (100, 100, [MOUSEBUTTONUP 1])]
               initial_state with
  | Ok st =>
      get_at (canvas (draw_pencil (100, 100) 5 initial_state)) (100, 104) = Ok BLACK ∧
      get_at (canvas st) (100, 104) = Ok WHITE
  | _ => False
  end.
Proof. vm_compute. done. Qed.

End Concrete.

(** * Further properties *)

(** ** Flood fill *)

(** What [fill_bucket] returns, in both of its cases. *)
Lemma fill_bucket_result st seed :
  canvas_sized (canvas st) → on_canvas seed = true →
  ∃ s',
    fill_bucket seed st = Ok (set_canvas st s') ∧ canvas_sized s' ∧
    (∀ p, connected (canvas st) (pixel (canvas st) seed) seed p →
          pixel s' p = current_color st) ∧
    (∀ p, ¬ connected (canvas st) (pixel (canvas st) seed) seed p →
          pixel s' p = pixel (canvas st) p) ∧
    (∀ p, connected (canvas st) (pixel (canvas st) seed) seed p ∨
          ¬ connected (canvas st) (pixel (canvas st) seed) seed p).
Proof.
  intros Hsz Hseed.
  destruct (fill_loop_from_seed (canvas st) (current_color st) seed Hsz Hseed)
    as (s' & v' & Hrun & Hinv).
  destruct (flood_inv_end _ _ _ _ _ _ Hinv) as [Hin Hout].
  assert (Hdec : ∀ p, connected (canvas st) (pixel (canvas st) seed) seed p ∨
                      ¬ connected (canvas st) (pixel (canvas st) seed) seed p).
  { intros p. pose proof Hinv as Hinv0. destruct Hinv as [_ _ Hvis _ _ _ Hconn Hfront Hsd].
    cbn [queue visited flooded] in *. setoid_rewrite app_nil_r in Hvis.
    fold (fill_trace seed st) in Hvis.
    destruct (decide (p ∈ fill_trace seed st)) as [Hp|Hp].
    - destruct (on_canvas p) eqn:Hon.
      + destruct (decide (pixel (canvas st) p = pixel (canvas st) seed)) as [Hc|Hc].
        * left. apply Hconn; [|exact Hon|exact Hc]. apply Hvis. exact Hp.
        * right. by intros [_ ?]%connected_on_canvas.
      + right. intros [? _]%connected_on_canvas. congruence.
    - right. intros Hc. apply Hp. clear Hp.
      fold (fill_trace seed st) in Hfront.
      induction Hc as [|q r Hq IH Hqr Hr1 Hr2].
      + by apply Hvis.
      + apply Hvis. apply connected_on_canvas in Hq as [? ?]. by apply (Hfront q r). }
  destruct (decide (pixel (canvas st) seed = current_color st)) as [Heq|Hne].
  - exists (canvas st). split; [|split; [done|split; [|split; [done|done]]]].
    + rewrite fill_bucket_returns_early; [by destruct st|by rewrite inside_canvas_sized|done].
    + intros p [_ Hp]%connected_on_canvas. congruence.
  - exists s'. rewrite fill_bucket_enters_loop, Hrun by done.
    split; [done|]. split; [apply Hinv|]. done.
Qed.

(** X1: a second flood fill from the same seed with the same colour changes
    nothing: after [fill_bucket] the seed has the fill colour, so the next
    call returns at once with the state it was given. *)
Theorem fill_bucket_twice st seed :
  canvas_sized (canvas st) → on_canvas seed = true →
  ∃ st', fill_bucket seed st = Ok st' ∧ fill_bucket seed st' = Ok st'.
Proof.
  intros Hsz Hseed.
  destruct (fill_bucket_result st seed Hsz Hseed) as (s' & Hrun & Hsz' & Hin & _).
  exists (set_canvas st s'). split; [done|].
  apply fill_bucket_returns_early; simpl.
  - by rewrite inside_canvas_sized.
  - apply Hin. by constructor.
Qed.

(** X2: on a canvas whose pixels all have one colour, a flood fill from any
    seed on the canvas gives every pixel of the canvas the fill colour. *)
Theorem fill_bucket_uniform_canvas st seed :
  canvas_sized (canvas st) → on_canvas seed = true →
  (∀ q, on_canvas q = true → pixel (canvas st) q = pixel (canvas st) seed) →
  ∃ st', fill_bucket seed st = Ok st' ∧
         ∀ q, on_canvas q = true → get_at (canvas st') q = Ok (current_color st).
Proof.
  intros Hsz Hseed Huni.
  destruct (fill_bucket_result st seed Hsz Hseed) as (s' & Hrun & Hsz' & Hin & _).
  exists (set_canvas st s'). split; [done|]. intros q Hq. simpl.
  unfold get_at. rewrite inside_canvas_sized, Hq by done. f_equal.
  apply Hin. by apply connected_uniform.
Qed.

(** X3: the result of a flood fill does not depend on which pixel of the
    region is the seed: for two seeds connected to each other, the two
    filled canvases have the same colour at every position. *)
Theorem fill_bucket_any_seed_of_region st a b :
  canvas_sized (canvas st) →
  connected (canvas st) (pixel (canvas st) a) a b →
  ∃ sa sb, fill_bucket a st = Ok sa ∧ fill_bucket b st = Ok sb ∧
           ∀ p, pixel (canvas sa) p = pixel (canvas sb) p.
Proof.
  intros Hsz Hab.
  assert (Ha : on_canvas a = true).
  { clear Hsz. induction Hab; auto. }
  destruct (connected_on_canvas _ _ _ _ Hab) as [Hb Hcol].
  destruct (fill_bucket_result st a Hsz Ha) as (sa & Hruna & _ & Hina & Houta & Hdec).
  destruct (fill_bucket_result st b Hsz Hb) as (sb & Hrunb & _ & Hinb & Houtb & _).
  rewrite Hcol in Hinb, Houtb.
  exists (set_canvas st sa), (set_canvas st sb). split; [done|]. split; [done|].
  intros p. simpl. destruct (Hdec p) as [Hp|Hp].
  - rewrite Hina by done. symmetry. apply Hinb.
    apply (connected_trans _ _ _ a); [by apply connected_sym|done].
  - rewrite Houta by done. symmetry. apply Houtb. intros Hbp. apply Hp.
    by apply (connected_trans _ _ _ b).
Qed.

Lemma fill_bucket_twice_witness :
  ∃ st', fill_bucket (5, 5) filling_islands = Ok st' ∧ fill_bucket (5, 5) st' = Ok st'.
Proof.
  apply (fill_bucket_twice filling_islands (5, 5)); [split; reflexivity | reflexivity].
Defined.

Lemma fill_bucket_uniform_canvas_witness :
  ∃ st', fill_bucket (0, 0) (set_current_color initial_state RED) = Ok st' ∧
         ∀ q, on_canvas q = true → get_at (canvas st') q = Ok RED.
Proof.
  apply (fill_bucket_uniform_canvas (set_current_color initial_state RED) (0, 0));
    [split; reflexivity | reflexivity | reflexivity].
Defined.

Lemma fill_bucket_any_seed_of_region_witness :
  ∃ sa sb, fill_bucket (5, 5) filling_islands = Ok sa ∧
           fill_bucket (6, 5) filling_islands = Ok sb ∧
           ∀ p, pixel (canvas sa) p = pixel (canvas sb) p.
Proof.
  apply (fill_bucket_any_seed_of_region filling_islands (5, 5) (6, 5));
    [split; reflexivity |].
  apply (connected_step islands WHITE (5, 5) (5, 5));
    [constructor; reflexivity | | reflexivity | reflexivity].
  exists (1, 0). split; [|reflexivity]. apply list_elem_of_here.
Defined.

(** ** The toolbar and the frames *)

Section EngineMore.
Context `{R : Rasterizer}.

(** *** The toolbar *)

Lemma collidepoint_spec r p :
  collidepoint r p = true ↔
  rect_left r <= p.1 < rect_left r + rect_width r ∧
  rect_top r <= p.2 < rect_top r + rect_height r.
Proof. unfold collidepoint. rewrite !andb_true_iff. lia. Qed.

Lemma rects_apart_miss r1 r2 p :
  rects_apart r1 r2 = true → collidepoint r1 p = true → collidepoint r2 p = false.
Proof.
  unfold rects_apart. rewrite !orb_true_iff, collidepoint_spec. intros Hap Hp.
  destruct (collidepoint r2 p) eqn:Hq; [|done].
  apply collidepoint_spec in Hq. lia.
Qed.

Lemma rects_apart_sym r1 r2 : rects_apart r1 r2 = rects_apart r2 r1.
Proof. unfold rects_apart. apply eq_true_iff_eq. rewrite !orb_true_iff. tauto. Qed.

(** In a list of buttons that do not overlap, a position inside one button is
    outside all the others. *)
Lemma pairwise_apart_miss l1 b l2 p :
  pairwise_apart (l1 ++ b :: l2) = true → collidepoint (btn_rect b) p = true →
  Forall (λ b', collidepoint (btn_rect b') p = false) (l1 ++ l2).
Proof.
  intros Hpw Hp. induction l1 as [|a l1 IH]; simpl in *.
  - apply andb_true_iff in Hpw as [Hb _]. apply Forall_forall. intros b' Hb'.
    rewrite forallb_forall in Hb. apply (rects_apart_miss (btn_rect b)); [|done].
    apply Hb. by apply list_elem_of_In.
  - apply andb_true_iff in Hpw as [Ha Hpw]. constructor; [|by apply IH].
    rewrite forallb_forall in Ha. apply (rects_apart_miss (btn_rect b)); [|done].
    rewrite rects_apart_sym. apply Ha. apply list_elem_of_In. set_solver.
Qed.

Lemma groups_apart_miss l k b p :
  groups_apart l k = true → b ∈ l → collidepoint (btn_rect b) p = true →
  Forall (λ b', collidepoint (btn_rect b') p = false) k.
Proof.
  unfold groups_apart. rewrite forallb_forall. intros Hg Hb Hp.
  apply list_elem_of_In, Hg in Hb. rewrite forallb_forall in Hb.
  apply Forall_forall. intros b' Hb'. apply (rects_apart_miss (btn_rect b)); [|done].
  apply Hb. by apply list_elem_of_In.
Qed.

Lemma groups_apart_miss_r l k b p :
  groups_apart l k = true → b ∈ k → collidepoint (btn_rect b) p = true →
  Forall (λ b', collidepoint (btn_rect b') p = false) l.
Proof.
  unfold groups_apart. rewrite forallb_forall. intros Hg Hb Hp.
  apply Forall_forall. intros b' Hb'. apply list_elem_of_In, Hg in Hb'.
  rewrite forallb_forall in Hb'. apply (rects_apart_miss (btn_rect b)); [|done].
  rewrite rects_apart_sym. apply Hb'. by apply list_elem_of_In.
Qed.

(** A loop over buttons none of which is hit changes nothing; a loop over
    buttons that do not overlap, one of which is hit, applies that button. *)
Lemma foldl_click_miss {X : Type} (key : X → Button) (upd : State → X → State)
    (l : list X) p ev st :
  Forall (λ b, collidepoint (btn_rect b) p = false) (key <$> l) →
  foldl (λ st x, if is_clicked (key x) p ev then upd st x else st) st l = st.
Proof.
  intros Hl. apply foldl_fixed. apply Forall_fmap in Hl.
  eapply Forall_impl; [exact Hl|]. intros x Hx st'. simpl in Hx.
  unfold is_clicked. rewrite Hx. by destruct (is_press ev).
Qed.

Lemma foldl_click_hit {X : Type} (key : X → Button) (upd : State → X → State)
    (l : list X) i x p ev st :
  l !! i = Some x → pairwise_apart (key <$> l) = true →
  is_press ev = true → collidepoint (btn_rect (key x)) p = true →
  foldl (λ st x, if is_clicked (key x) p ev then upd st x else st) st l = upd st x.
Proof.
  intros Hi Hpw Hev Hp. rewrite <- (take_drop_middle l i x Hi) in Hpw |- *.
  rewrite fmap_app, fmap_cons in Hpw.
  pose proof (pairwise_apart_miss _ _ _ p Hpw Hp) as Hmiss.
  apply Forall_app in Hmiss as [H1 H2].
  rewrite foldl_app. cbn [foldl]. rewrite (foldl_click_miss key upd (take i l)) by done.
  unfold is_clicked at 2. rewrite Hev, Hp.
  by rewrite (foldl_click_miss key upd (drop (S i) l)).
Qed.

Lemma buttons_apart :
  pairwise_apart color_buttons = true ∧ pairwise_apart tool_buttons = true ∧
  pairwise_apart brush_buttons = true ∧
  groups_apart color_buttons tool_buttons = true ∧
  groups_apart color_buttons brush_buttons = true ∧
  groups_apart color_buttons [clear_button] = true ∧
  groups_apart tool_buttons brush_buttons = true ∧
  groups_apart tool_buttons [clear_button] = true ∧
  groups_apart brush_buttons [clear_button] = true.
Proof. vm_compute. done. Qed.

Lemma button_off_canvas b p :
  b ∈ all_buttons → collidepoint (btn_rect b) p = true → on_canvas p = false.
Proof.
  intros Hb Hp. pose proof buttons_right_of_canvas as Hr.
  rewrite Forall_forall in Hr. specialize (Hr b Hb). unfold right_of_canvas in Hr.
  apply collidepoint_spec in Hp. destruct (on_canvas p) eqn:Hon; [|done].
  apply on_canvas_spec in Hon. lia.
Qed.

Lemma fst_zip_tools : (zip tool_buttons tools).*1 = tool_buttons.
Proof. done. Qed.

Lemma fst_zip_sizes : (zip brush_buttons BRUSH_SIZES).*1 = brush_buttons.
Proof. done. Qed.

(** A frame with the pointer off the canvas whose only event is a press is
    the button interaction alone. *)
Lemma press_off_canvas p st :
  on_canvas p = false →
  frame p [MOUSEBUTTONDOWN 1] st = Ok (button_interaction p (MOUSEBUTTONDOWN 1) st).
Proof.
  intros Hoff. unfold frame. cbn [handle_events]. unfold handle_event.
  rewrite canvas_pos_off by done. cbn [canvas_interaction mbind result_mbind result_bind].
  unfold continuous_drawing. by destruct (drawing _).
Qed.

(** X4: a left press inside the i-th colour button selects the i-th colour of
    the palette and changes nothing else: not the tool, the size, the canvas
    or the gesture. The buttons do not overlap, so no other button answers. *)
Theorem click_color_button i btn p st :
  color_buttons !! i = Some btn → collidepoint (btn_rect btn) p = true →
  palette_colors !! i = Some (btn_color btn) ∧
  frame p [MOUSEBUTTONDOWN 1] st = Ok (set_current_color st (btn_color btn)).
Proof.
  intros Hi Hp. destruct buttons_apart as (Hc & _ & _ & Hct & Hcb & Hcx & _).
  assert (Hin : btn ∈ color_buttons) by (by eapply list_elem_of_lookup_2).
  split.
  - unfold color_buttons in Hi. rewrite list_lookup_imap in Hi.
    destruct (palette_colors !! i); [|done]. simpl in Hi. by injection Hi as <-.
  - rewrite press_off_canvas.
    2:{ apply (button_off_canvas btn); [|done]. unfold all_buttons. rewrite !elem_of_app. auto. }
    f_equal. unfold button_interaction.
    rewrite (foldl_click_hit id (λ st b, set_current_color st (btn_color b))
               color_buttons i btn); [|done|by rewrite list_fmap_id|done|done].
    rewrite (foldl_click_miss fst (λ st bt, set_current_tool st bt.2)).
    2:{ rewrite fst_zip_tools. by apply (groups_apart_miss color_buttons _ btn). }
    rewrite (foldl_click_miss fst (λ st bs, set_brush_size st bs.2)).
    2:{ rewrite fst_zip_sizes. by apply (groups_apart_miss color_buttons _ btn). }
    pose proof (groups_apart_miss _ _ btn p Hcx Hin Hp) as Hx.
    apply Forall_inv in Hx. cbv beta in Hx. unfold is_clicked. rewrite Hx. by destruct (is_press _).
Qed.

(** X5: a left press inside the i-th tool button selects the i-th tool of the
    [tools] table and changes nothing else. *)
Theorem click_tool_button i btn tool p st :
  tool_buttons !! i = Some btn → tools !! i = Some tool →
  collidepoint (btn_rect btn) p = true →
  frame p [MOUSEBUTTONDOWN 1] st = Ok (set_current_tool st tool).
Proof.
  intros Hi Ht Hp. destruct buttons_apart as (_ & Htt & _ & Hct & _ & _ & Htb & Htx & _).
  assert (Hin : btn ∈ tool_buttons) by (by eapply list_elem_of_lookup_2).
  rewrite press_off_canvas.
  2:{ apply (button_off_canvas btn); [|done]. unfold all_buttons. rewrite !elem_of_app. auto. }
  f_equal. unfold button_interaction.
  rewrite (foldl_click_miss id (λ st b, set_current_color st (btn_color b))).
  2:{ rewrite list_fmap_id. by apply (groups_apart_miss_r _ tool_buttons btn). }
  rewrite (foldl_click_hit fst (λ st bt, set_current_tool st bt.2)
             (zip tool_buttons tools) i (btn, tool));
    [|by apply lookup_zip_Some|by rewrite fst_zip_tools|done|done].
  rewrite (foldl_click_miss fst (λ st bs, set_brush_size st bs.2)).
  2:{ rewrite fst_zip_sizes. by apply (groups_apart_miss tool_buttons _ btn). }
  pose proof (groups_apart_miss _ _ btn p Htx Hin Hp) as Hx.
  apply Forall_inv in Hx. cbv beta in Hx. unfold is_clicked. rewrite Hx. by destruct (is_press _).
Qed.

(** X6: a left press inside the i-th size button selects the i-th entry of
    [BRUSH_SIZES] and changes nothing else. *)
Theorem click_brush_button i btn size p st :
  brush_buttons !! i = Some btn → BRUSH_SIZES !! i = Some size →
  collidepoint (btn_rect btn) p = true →
  frame p [MOUSEBUTTONDOWN 1] st = Ok (set_brush_size st size).
Proof.
  intros Hi Hs Hp. destruct buttons_apart as (_ & _ & Hbb & _ & Hcb & _ & Htb & _ & Hbx).
  assert (Hin : btn ∈ brush_buttons) by (by eapply list_elem_of_lookup_2).
  rewrite press_off_canvas.
  2:{ apply (button_off_canvas btn); [|done]. unfold all_buttons. rewrite !elem_of_app. auto. }
  f_equal. unfold button_interaction.
  rewrite (foldl_click_miss id (λ st b, set_current_color st (btn_color b))).
  2:{ rewrite list_fmap_id. by apply (groups_apart_miss_r _ brush_buttons btn). }
  rewrite (foldl_click_miss fst (λ st bt, set_current_tool st bt.2)).
  2:{ rewrite fst_zip_tools. by apply (groups_apart_miss_r _ brush_buttons btn). }
  rewrite (foldl_click_hit fst (λ st bs, set_brush_size st bs.2)
             (zip brush_buttons BRUSH_SIZES) i (btn, size));
    [|by apply lookup_zip_Some|by rewrite fst_zip_sizes|done|done].
  pose proof (groups_apart_miss _ _ btn p Hbx Hin Hp) as Hx.
  apply Forall_inv in Hx. cbv beta in Hx. unfold is_clicked. rewrite Hx. by destruct (is_press _).
Qed.

(** X7: a left press inside the clear button makes every pixel of the canvas
    white and keeps the size of the canvas, the selection and the gesture
    state, a stored snapshot included. *)
Theorem click_clear_button p st :
  collidepoint (btn_rect clear_button) p = true →
  ∃ st', frame p [MOUSEBUTTONDOWN 1] st = Ok st' ∧
         st' = set_canvas st (canvas st') ∧
         get_width (canvas st') = get_width (canvas st) ∧
         get_height (canvas st') = get_height (canvas st) ∧
         ∀ q, pixel (canvas st') q = WHITE.
Proof.
  intros Hp. destruct buttons_apart as (_ & _ & _ & _ & _ & Hcx & _ & Htx & Hbx).
  assert (Hin : clear_button ∈ [clear_button]) by apply list_elem_of_here.
  rewrite press_off_canvas.
  2:{ apply (button_off_canvas clear_button); [|done]. unfold all_buttons. rewrite !elem_of_app. auto. }
  eexists. split; [done|]. unfold button_interaction.
  rewrite (foldl_click_miss id (λ st b, set_current_color st (btn_color b))).
  2:{ rewrite list_fmap_id. by apply (groups_apart_miss_r _ [clear_button] clear_button). }
  rewrite (foldl_click_miss fst (λ st bt, set_current_tool st bt.2)).
  2:{ rewrite fst_zip_tools. by apply (groups_apart_miss_r _ [clear_button] clear_button). }
  rewrite (foldl_click_miss fst (λ st bs, set_brush_size st bs.2)).
  2:{ rewrite fst_zip_sizes. by apply (groups_apart_miss_r _ [clear_button] clear_button). }
  unfold is_clicked. rewrite Hp. done.
Qed.

(** *** Frames *)

Lemma fill_bucket_sets_canvas pos st st' :
  fill_bucket pos st = Ok st' → st' = set_canvas st (canvas st').
Proof.
  unfold fill_bucket. destruct (get_at (canvas st) pos) as [c| | |]; try done.
  cbn [mbind result_mbind result_bind]. destruct (decide _).
  - intros [= <-]. by destruct st.
  - destruct (fill_loop _ _ _ _) as [s| | |]; try done.
    cbn [mbind result_mbind result_bind]. by intros [= <-].
Qed.

Lemma handle_events_gesture_inv mouse_pos events st st' :
  gesture_inv st → handle_events mouse_pos events st = Ok st' → gesture_inv st'.
Proof.
  revert st. induction events as [|e events IH]; intros st Hinv; cbn [handle_events].
  - by intros [= <-].
  - destruct (handle_event mouse_pos e st) as [st1| | |] eqn:He; try done.
    cbn [mbind result_mbind result_bind]. apply IH.
    by eapply handle_event_gesture_inv.
Qed.

(** X8: with the pointer off the canvas, a frame whose events are neither
    [QUIT] nor a left press that hits a button changes nothing at all: moves,
    releases, presses of other mouse buttons and presses beside the buttons
    leave the canvas, the selection and the gesture as they were, also while
    the pencil or the eraser is held down. *)
Theorem off_canvas_frame_changes_nothing mouse_pos events st :
  on_canvas mouse_pos = false →
  Forall (λ e, e ≠ QUIT ∧
               (is_press e = true →
                Forall (λ b, collidepoint (btn_rect b) mouse_pos = false) all_buttons))
         events →
  frame mouse_pos events st = Ok st.
Proof.
  intros Hoff Hev. unfold frame.
  assert (Hrun : handle_events mouse_pos events st = Ok st).
  { induction Hev as [|e events [Hq Hmiss] _ IH]; [done|]. cbn [handle_events].
    assert (He : handle_event mouse_pos e st = Ok st).
    { destruct (is_press e) eqn:Hp; [|by apply handle_event_off_canvas].
      unfold handle_event. rewrite canvas_pos_off by done.
      cbn [canvas_interaction mbind result_mbind result_bind].
      specialize (Hmiss eq_refl). unfold all_buttons in Hmiss.
      rewrite !Forall_app in Hmiss. destruct Hmiss as (Hc & Ht & Hb & Hx).
      apply Forall_inv in Hx. cbv beta in Hx. unfold button_interaction.
      rewrite (foldl_click_miss id (λ st b, set_current_color st (btn_color b)))
        by (by rewrite list_fmap_id).
      rewrite (foldl_click_miss fst (λ st bt, set_current_tool st bt.2))
        by (by rewrite fst_zip_tools).
      rewrite (foldl_click_miss fst (λ st bs, set_brush_size st bs.2))
        by (by rewrite fst_zip_sizes).
      unfold is_clicked. rewrite Hx, Hp. by destruct e. }
    rewrite He. apply IH. }
  rewrite Hrun. cbn [mbind result_mbind result_bind]. rewrite canvas_pos_off by done.
  unfold continuous_drawing. by destruct (drawing st).
Qed.

Lemma canvas_interaction_selection pos event st st' :
  canvas_interaction pos event st = Ok st' →
  current_color st' = current_color st ∧ current_tool st' = current_tool st ∧
  brush_size st' = brush_size st.
Proof.
  unfold canvas_interaction. destruct pos as [pos|]; [|by intros [= <-]].
  destruct (is_press event).
  - destruct st as [cv dr lp col tool size sp tmp]. simpl.
    destruct tool; try (by intros [= <-]).
    intros ->%fill_bucket_sets_canvas. done.
  - destruct (is_release event); [|by intros [= <-]].
    intros [= <-]. destruct st as [cv dr lp col tool size sp tmp].
    unfold finalize_shape. simpl. by destruct tool, sp, tmp.
Qed.

(** X9: whatever happens with the pointer on the canvas (presses, releases,
    drags, flood fills), the selected colour, tool and brush size stay as they
    are: only a press on a toolbar button changes the selection. *)
Theorem on_canvas_frame_keeps_selection mouse_pos events st st' :
  on_canvas mouse_pos = true → frame mouse_pos events st = Ok st' →
  current_color st' = current_color st ∧ current_tool st' = current_tool st ∧
  brush_size st' = brush_size st.
Proof.
  intros Hon. unfold frame.
  destruct (handle_events mouse_pos events st) as [st1| | |] eqn:Hev; try done.
  cbn [mbind result_mbind result_bind]. intros [= <-].
  assert (H1 : current_color st1 = current_color st ∧ current_tool st1 = current_tool st ∧
               brush_size st1 = brush_size st).
  { clear -Hon Hev. revert st Hev.
    induction events as [|e events IH]; intros st; cbn [handle_events].
    - by intros [= <-].
    - destruct (handle_event mouse_pos e st) as [st2| | |] eqn:He; try done.
      cbn [mbind result_mbind result_bind]. intros Hrest.
      destruct (IH _ Hrest) as (-> & -> & ->).
      unfold handle_event in He. destruct e; try done;
        (destruct (canvas_interaction _ _ st) as [st3| | |] eqn:Hci; try done;
         cbn [mbind result_mbind result_bind] in He;
         rewrite button_interaction_on_canvas in He by done;
         injection He as <-; by eapply canvas_interaction_selection). }
  destruct H1 as (<- & <- & <-). unfold continuous_drawing.
  destruct st1 as [cv dr lp col tool size sp tmp]. simpl.
  by destruct dr, (canvas_pos mouse_pos), tool, lp.
Qed.

(** X10: in every state the program reaches from start-up, and after the
    events of any further frame, the continuous drawing of the pencil and of
    the eraser finds a last position and strokes a segment from it with
    [draw_line]: the branches that call [draw_pencil] and [draw_eraser] are
    never taken. *)
Theorem dot_branches_never_taken fs mouse_pos events pos st st1 :
  frames fs initial_state = Ok st →
  handle_events mouse_pos events st = Ok st1 →
  drawing st1 = true → is_stroke_tool (current_tool st1) = true →
  ∃ lp, last_pos st1 = Some lp ∧
        continuous_drawing (Some pos) st1
          = set_last_pos (draw_line lp pos (brush_size st1) st1) (Some pos).
Proof.
  intros Hfs Hev Hd Ht.
  apply continuous_drawing_strokes_segment; [|done|].
  - eapply handle_events_gesture_inv; [|done]. by eapply frames_gesture_inv.
  - by destruct (current_tool st1); auto.
Qed.

(** X11: started from the start-up state, the engine never fails: for any
    mouse positions and any events short of [QUIT], a run of frames returns,
    with a canvas of 800 by 600 pixels; no pixel access leaves a surface and
    every flood fill runs to its end. *)
Theorem engine_never_fails fs :
  Forall (λ f : Point * list Event, QUIT ∉ f.2) fs →
  ∃ st, frames fs initial_state = Ok st ∧ canvas_sized (canvas st).
Proof. intros Hfs. by apply frames_ok. Qed.

Lemma continuous_drawing_fill pos st :
  current_tool st = fill → continuous_drawing pos st = st.
Proof.
  unfold continuous_drawing. intros ->. by destruct (drawing st), pos.
Qed.

Lemma frames_motion_fill moves st :
  current_tool st = fill →
  Forall (λ f : Point * list Event, Forall (eq MOUSEMOTION) f.2) moves →
  frames moves st = Ok st.
Proof.
  intros Ht. induction 1 as [|[pos events] moves Hev _ IH]; [done|].
  cbn [frames]. unfold frame. rewrite handle_events_motion by done.
  cbn [mbind result_mbind result_bind]. by rewrite continuous_drawing_fill.
Qed.

(** X12: with the fill tool, a press on the canvas flood-fills once, from the
    pressed position; dragging afterwards, over the canvas or off it, fills
    nothing more. The press also sets [drawing] and the anchor and last
    positions, as for every tool. *)
Theorem fill_gesture_fills_once st pos moves :
  current_tool st = fill → canvas_sized (canvas st) → on_canvas pos = true →
  Forall (λ f : Point * list Event, Forall (eq MOUSEMOTION) f.2) moves →
  ∃ filled st',
    fill_bucket pos st = Ok filled ∧
    frames ((pos, [MOUSEBUTTONDOWN 1]) :: moves) st = Ok st' ∧
    canvas st' = canvas filled ∧
    drawing st' = true ∧ last_pos st' = Some pos ∧ start_pos st' = Some pos ∧
    temp_surface st' = temp_surface st.
Proof.
  intros Ht Hsz Hpos Hmoves.
  destruct (fill_bucket_ok st pos Hsz Hpos) as (filled & Hfill & _).
  pose proof (fill_bucket_sets_canvas _ _ _ Hfill) as Hst.
  exists filled.
  destruct st as [cv dr lp col tool size sp tmp]. simpl in Ht. subst tool.
  set (st1 := mkState cv true (Some pos) col fill size (Some pos) tmp).
  assert (Hfill1 : fill_bucket pos st1 = Ok (set_canvas st1 (canvas filled))).
  { revert Hfill. unfold fill_bucket, st1. cbn [canvas current_color].
    destruct (get_at cv pos) as [c| | |]; try done.
    cbn [mbind result_mbind result_bind]. destruct (decide _).
    - by intros [= <-].
    - destruct (fill_loop _ _ _ _) as [s| | |]; try done.
      cbn [mbind result_mbind result_bind]. by intros [= <-]. }
  exists (set_canvas st1 (canvas filled)). split; [done|]. split; [|done].
  cbn [frames]. unfold frame. cbn [handle_events]. unfold handle_event.
  rewrite canvas_pos_on by done. unfold canvas_interaction.
  cbn [is_press Z.eqb Pos.eqb]. cbn [set_drawing set_last_pos set_start_pos current_tool].
  change (fill_bucket pos _) with (fill_bucket pos st1). rewrite Hfill1.
  cbn [mbind result_mbind result_bind].
  rewrite button_interaction_on_canvas by done.
  cbn [mbind result_mbind result_bind].
  rewrite continuous_drawing_fill by done.
  by apply frames_motion_fill.
Qed.

Lemma stroke_end_cons lp p ps : stroke_end lp (p :: ps) = stroke_end p ps.
Proof. unfold stroke_end. rewrite last_cons. by destruct (last ps). Qed.

(** X13: while the pencil or the eraser is held down, the frames of a drag
    stroke one segment per frame whose pointer is on the canvas, each from the
    position of the previous such frame to the new one, all in
    [current_color] and [brush_size]; frames with the pointer off the canvas
    draw nothing and do not move the last position, so the stroke resumes
    with a segment from where it left the canvas. *)
Theorem drag_strokes_polyline st lp moves :
  drawing st = true → is_stroke_tool (current_tool st) = true →
  last_pos st = Some lp →
  Forall (λ f : Point * list Event, Forall (eq MOUSEMOTION) f.2) moves →
  frames moves st
    = Ok (set_last_pos
            (set_canvas st (stroke (current_color st) (brush_size st) lp
                                   (on_canvas_positions moves) (canvas st)))
            (Some (stroke_end lp (on_canvas_positions moves)))).
Proof.
  intros Hd Ht Hl Hmoves. revert st lp Hd Ht Hl.
  induction Hmoves as [|[pos events] moves Hev _ IH]; intros st lp Hd Ht Hl.
  - destruct st; simpl in *. by subst.
  - cbn [frames]. unfold frame. rewrite handle_events_motion by done.
    cbn [mbind result_mbind result_bind]. unfold on_canvas_positions.
    rewrite fmap_cons. cbn [fst]. unfold canvas_pos.
    destruct (on_canvas pos) eqn:Hon.
    + rewrite filter_cons_True by done. rewrite stroke_end_cons. cbn [stroke].
      destruct st as [cv dr l col tool size sp tmp]. simpl in Hd, Hl, Ht. subst dr l.
      assert (Hcd : continuous_drawing (Some pos)
                      (mkState cv true (Some lp) col tool size sp tmp)
                    = mkState (pygame_draw_line cv col lp pos size) true (Some pos)
                              col tool size sp tmp).
      { by destruct tool. }
      rewrite Hcd. by rewrite (IH _ pos).
    + rewrite filter_cons_False by congruence.
      assert (Hcd : continuous_drawing None st = st).
      { unfold continuous_drawing. by destruct (drawing st). }
      rewrite Hcd. by apply IH.
Qed.

(** X14: a release on the canvas draws only for a shape tool with a stored
    snapshot: for the pencil, the eraser and the fill tool, and for a shape
    tool without anchor or snapshot, it leaves the canvas as it is and just
    ends the gesture. *)
Theorem release_without_shape_draws_nothing pos st :
  on_canvas pos = true →
  is_shape_tool (current_tool st) = false ∨ start_pos st = None ∨ temp_surface st = None →
  frame pos [MOUSEBUTTONUP 1] st = Ok (set_last_pos (set_drawing st false) None).
Proof.
  intros Hpos Hcase. unfold frame. cbn [handle_events]. unfold handle_event.
  rewrite canvas_pos_on by done. unfold canvas_interaction.
  cbn [is_press is_release Z.eqb Pos.eqb].
  cbn [mbind result_mbind result_bind].
  rewrite button_interaction_on_canvas by done.
  cbn [mbind result_mbind result_bind]. f_equal.
  destruct st as [cv dr lp col tool size sp tmp]. unfold finalize_shape. simpl in *.
  destruct Hcase as [Ht|[-> | ->]].
  - by destruct tool.
  - by destruct tool.
  - by destruct tool, sp.
Qed.

(** X15: mouse buttons other than the left one do nothing: a press or a
    release of another button, on the canvas or on a toolbar button, leaves
    the state as it is. *)
Theorem other_mouse_buttons_ignored mouse_pos button st :
  button ≠ 1 →
  handle_event mouse_pos (MOUSEBUTTONDOWN button) st = Ok st ∧
  handle_event mouse_pos (MOUSEBUTTONUP button) st = Ok st.
Proof.
  intros Hb. apply Z.eqb_neq in Hb.
  unfold handle_event, canvas_interaction. cbn [is_press is_release]. rewrite Hb.
  split; destruct (canvas_pos mouse_pos); cbn [mbind result_mbind result_bind];
    by rewrite button_interaction_no_press by (simpl; done).
Qed.

(** X16: a frame that holds a [QUIT] event leaves the program: whatever the
    other events are and wherever the pointer is, the frame ends in
    [SystemExit] and its continuous drawing is not reached. *)
Theorem quit_exits mouse_pos events st :
  canvas_sized (canvas st) → QUIT ∈ events →
  frame mouse_pos events st = SystemExit.
Proof.
  intros Hsz Hq. unfold frame.
  assert (Hrun : handle_events mouse_pos events st = SystemExit).
  { revert st Hsz. induction events as [|e events IH]; intros st Hsz.
    - by apply elem_of_nil in Hq.
    - cbn [handle_events].
      assert (e = QUIT ∨ e ≠ QUIT) as [->|He] by (destruct e; auto); [done|].
      apply elem_of_cons in Hq as [Hq|Hq]; [done|].
      destruct (canvas_interaction_ok mouse_pos e st Hsz) as (st1 & Hci & Hsz1).
      assert (Hhe : handle_event mouse_pos e st = Ok (button_interaction mouse_pos e st1)).
      { unfold handle_event. rewrite Hci. by destruct e. }
      rewrite Hhe. cbn [mbind result_mbind result_bind].
      apply IH; [done|]. by apply button_interaction_canvas_sized. }
  by rewrite Hrun.
Qed.

(** X17: the rectangle tool does not depend on the direction of the drag:
    the rectangle spanned by two corners has its left and top edge at the
    smaller and its right and bottom edge at the larger coordinates, a width
    and a height that are not negative, and [draw_rectangle] draws the same
    from either corner to the other. *)
Theorem draw_rectangle_any_direction start_ end_ size st :
  draw_rectangle start_ end_ size st = draw_rectangle end_ start_ size st ∧
  rect_left (corner_rect start_ end_) = Z.min start_.1 end_.1 ∧
  rect_left (corner_rect start_ end_) + rect_width (corner_rect start_ end_)
    = Z.max start_.1 end_.1 ∧
  rect_top (corner_rect start_ end_) = Z.min start_.2 end_.2 ∧
  rect_top (corner_rect start_ end_) + rect_height (corner_rect start_ end_)
    = Z.max start_.2 end_.2.
Proof.
  assert (Hsym : corner_rect start_ end_ = corner_rect end_ start_).
  { unfold corner_rect. f_equal; lia. }
  split; [unfold draw_rectangle; by rewrite Hsym|].
  unfold corner_rect. simpl. lia.
Qed.

(** X18: what the preview shows is what the release commits: for a shape
    being previewed and the pointer on the canvas, every pixel within the
    snapshot has the same colour on the display after the preview pass and on
    the canvas after a release at that position. *)
Theorem release_commits_the_preview st tmp anchor pos screen :
  drawing st = true → temp_surface st = Some tmp → start_pos st = Some anchor →
  is_shape_tool (current_tool st) = true → on_canvas pos = true →
  ∃ st', frame pos [MOUSEBUTTONUP 1] st = Ok st' ∧
         ∀ q, inside tmp q = true →
              pixel (canvas st') q = pixel (render_preview pos st screen) q.
Proof.
  intros Hd Htmp Hs Ht Hpos.
  destruct (release_shape pos st anchor tmp) as (st' & Hrun & Hc & _); try done.
  exists st'. split; [done|]. intros q Hq. rewrite Hc.
  rewrite (finalize_shape_pixels pos st anchor tmp) by done.
  destruct q as [x y]. unfold render_preview. rewrite Hd, Htmp, Hs, canvas_pos_on by done.
  rewrite Hq.
  destruct (current_tool st); try done; simpl; rewrite !Z.sub_0_r, Hq; done.
Qed.

(** X19: a release of a shape tool writes the stored snapshot back before it
    draws: within the snapshot, the canvas after the release is the snapshot
    with the final outline on it, whatever the canvas held before the
    release; what was drawn or cleared since the press is gone. *)
Theorem release_restores_snapshot st tmp anchor pos :
  is_shape_tool (current_tool st) = true →
  start_pos st = Some anchor → temp_surface st = Some tmp → on_canvas pos = true →
  ∃ st', frame pos [MOUSEBUTTONUP 1] st = Ok st' ∧
         temp_surface st' = None ∧
         ∀ q, inside tmp q = true →
              pixel (canvas st') q =
                if outline (current_tool st) anchor pos (brush_size st) q
                then current_color st else pixel tmp q.
Proof.
  intros Ht Hs Htmp Hpos.
  destruct (release_shape pos st anchor tmp) as (st' & Hrun & Hc & _ & Hnone); try done.
  exists st'. split; [done|]. split; [done|]. intros q Hq. rewrite Hc.
  rewrite (finalize_shape_pixels pos st anchor tmp) by done. by rewrite Hq.
Qed.

(** X20: the preview pass blits the snapshot for every tool: when a snapshot
    is still stored and the button counts as held while the pencil, the
    eraser or the fill tool is selected (as after a shape gesture released off
    the canvas and a change of tool), then with the pointer on the canvas the
    display shows the snapshot wherever the snapshot reaches, whatever the
    passes before put there, the canvas blitted at line 302 included. *)
Theorem stale_snapshot_covers_display st tmp anchor mouse_pos screen :
  drawing st = true → temp_surface st = Some tmp → start_pos st = Some anchor →
  is_shape_tool (current_tool st) = false → on_canvas mouse_pos = true →
  ∀ q, inside tmp q = true →
       get_at (render_preview mouse_pos st screen) q = get_at (blit screen tmp (0, 0)) q.
Proof.
  intros Hd Htmp Hs Ht Hpos [x y] Hq. unfold render_preview.
  rewrite Hd, Htmp, Hs, canvas_pos_on by done.
  destruct (current_tool st); try done; unfold get_at, inside; simpl;
    by rewrite !Z.sub_0_r, Hq.
Qed.

(** X21: a stroke outlives a release off the canvas: when the pencil or the
    eraser is held down, the button is released with the pointer off the
    canvas and the pointer then returns to the canvas, the next frame strokes
    a segment from the last position on the canvas to the new one, the
    button being up. *)
Theorem stroke_survives_release_off_canvas st lp off pos :
  drawing st = true → is_stroke_tool (current_tool st) = true →
  last_pos st = Some lp → on_canvas off = false → on_canvas pos = true →
  frames [(off, [MOUSEBUTTONUP 1]); (pos, [MOUSEMOTION])] st
    = Ok (set_last_pos
            (set_canvas st (pygame_draw_line (canvas st) (current_color st) lp pos
                                             (brush_size st)))
            (Some pos)).
Proof.
  intros Hd Ht Hl Hoff Hpos.
  assert (H1 : frame off [MOUSEBUTTONUP 1] st = Ok st).
  { unfold frame. cbn [handle_events]. rewrite handle_event_off_canvas by done.
    cbn [mbind result_mbind result_bind]. rewrite canvas_pos_off by done.
    unfold continuous_drawing. by destruct (drawing st). }
  cbn [frames]. rewrite H1. cbn [mbind result_mbind result_bind].
  unfold frame. rewrite handle_events_motion by (by repeat constructor).
  cbn [mbind result_mbind result_bind]. rewrite canvas_pos_on by done.
  destruct st as [cv dr l col tool size sp tmp]. simpl in *. subst dr l.
  by destruct tool.
Qed.

End EngineMore.

(** ** The further properties on concrete inputs *)

Section ConcreteMore.
#[local] Existing Instance spec_rasterizer.

Lemma click_color_button_witness :
  palette_colors !! 1%nat = Some RED ∧
  frame (860, 110) [MOUSEBUTTONDOWN 1] initial_state
    = Ok (set_current_color initial_state RED).
Proof.
  apply (click_color_button 1 (mkButton (mkRect 855 100 30 30) RED) (860, 110)
           initial_state); reflexivity.
Defined.

Lemma click_tool_button_witness :
  frame (890, 310) [MOUSEBUTTONDOWN 1] initial_state
    = Ok (set_current_tool initial_state circle).
Proof.
  apply (click_tool_button 4 (mkButton (mkRect 880 300 50 40) LIGHT_GRAY) circle
           (890, 310) initial_state); reflexivity.
Defined.

Lemma click_brush_button_witness :
  frame (870, 450) [MOUSEBUTTONDOWN 1] initial_state
    = Ok (set_brush_size initial_state 18).
Proof.
  apply (click_brush_button 5 (mkButton (mkRect 865 440 40 30) LIGHT_GRAY) 18
           (870, 450) initial_state); reflexivity.
Defined.

Lemma click_clear_button_witness :
  ∃ st', frame (830, 560) [MOUSEBUTTONDOWN 1] previewing_line = Ok st' ∧
         st' = set_canvas previewing_line (canvas st') ∧
         get_width (canvas st') = get_width (canvas previewing_line) ∧
         get_height (canvas st') = get_height (canvas previewing_line) ∧
         ∀ q, pixel (canvas st') q = WHITE.
Proof.
  apply (click_clear_button (830, 560) previewing_line). reflexivity.
Defined.

Lemma off_canvas_frame_changes_nothing_witness :
  frame (990, 690)
        [MOUSEMOTION; MOUSEBUTTONUP 1; MOUSEBUTTONDOWN 1; MOUSEBUTTONDOWN 3]
        drawing_with_pencil
    = Ok drawing_with_pencil.
Proof.
  apply (off_canvas_frame_changes_nothing (990, 690)
           [MOUSEMOTION; MOUSEBUTTONUP 1; MOUSEBUTTONDOWN 1; MOUSEBUTTONDOWN 3]
           drawing_with_pencil); [reflexivity|].
  repeat (constructor;
          [split; [discriminate|intros Hp; try discriminate Hp;
                                vm_compute; repeat constructor]|]).
  constructor.
Defined.

Lemma on_canvas_frame_keeps_selection_witness :
  current_color previewing_line = current_color line_selected ∧
  current_tool previewing_line = current_tool line_selected ∧
  brush_size previewing_line = brush_size line_selected.
Proof.
  apply (on_canvas_frame_keeps_selection (10, 10) [MOUSEBUTTONDOWN 1]
           line_selected previewing_line); reflexivity.
Defined.

Lemma dot_branches_never_taken_witness :
  ∃ lp, last_pos drawing_with_pencil = Some lp ∧
        continuous_drawing (Some (20, 10)) drawing_with_pencil
          = set_last_pos (draw_line lp (20, 10) (brush_size drawing_with_pencil)
                                    drawing_with_pencil)
                         (Some (20, 10)).
Proof.
  apply (dot_branches_never_taken [] (10, 10) [MOUSEBUTTONDOWN 1] (20, 10)
           initial_state drawing_with_pencil); reflexivity.
Defined.

Lemma engine_never_fails_witness :
  ∃ st, frames [(10, 10, [MOUSEBUTTONDOWN 1]); (20, 10, [MOUSEMOTION]);
                (20, 10, [MOUSEBUTTONUP 1])] initial_state = Ok st ∧
        canvas_sized (canvas st).
Proof.
  apply (engine_never_fails
           [(10, 10, [MOUSEBUTTONDOWN 1]); (20, 10, [MOUSEMOTION]);
            (20, 10, [MOUSEBUTTONUP 1])]).
  apply (bool_decide_unpack _). vm_compute. exact I.
Defined.

Lemma fill_gesture_fills_once_witness :
  ∃ filled st',
    fill_bucket (5, 5) filling_islands = Ok filled ∧
    frames ((5, 5, [MOUSEBUTTONDOWN 1]) :: [(6, 5, [MOUSEMOTION]); (900, 5, [])])
           filling_islands = Ok st' ∧
    canvas st' = canvas filled ∧
    drawing st' = true ∧ last_pos st' = Some (5, 5) ∧ start_pos st' = Some (5, 5) ∧
    temp_surface st' = None.
Proof.
  apply (fill_gesture_fills_once filling_islands (5, 5)
           [(6, 5, [MOUSEMOTION]); (900, 5, [])]);
    [reflexivity | split; reflexivity | reflexivity | repeat constructor].
Defined.

Lemma drag_strokes_polyline_witness :
  frames [(20, 10, [MOUSEMOTION]); (900, 10, [MOUSEMOTION]); (30, 40, [])]
         drawing_with_pencil
    = Ok (set_last_pos
            (set_canvas drawing_with_pencil
               (stroke BLACK 5 (10, 10) [(20, 10); (30, 40)] (canvas initial_state)))
            (Some (30, 40))).
Proof.
  apply (drag_strokes_polyline drawing_with_pencil (10, 10)
           [(20, 10, [MOUSEMOTION]); (900, 10, [MOUSEMOTION]); (30, 40, [])]);
    [reflexivity | reflexivity | reflexivity | repeat constructor].
Defined.

Lemma release_without_shape_draws_nothing_witness :
  frame (10, 10) [MOUSEBUTTONUP 1] drawing_with_pencil
    = Ok (set_last_pos (set_drawing drawing_with_pencil false) None).
Proof.
  apply (release_without_shape_draws_nothing (10, 10) drawing_with_pencil);
    [reflexivity | left; reflexivity].
Defined.

Lemma other_mouse_buttons_ignored_witness :
  handle_event (10, 10) (MOUSEBUTTONDOWN 3) initial_state = Ok initial_state ∧
  handle_event (10, 10) (MOUSEBUTTONUP 3) initial_state = Ok initial_state.
Proof.
  apply (other_mouse_buttons_ignored (10, 10) 3 initial_state). discriminate.
Defined.

Lemma quit_exits_witness :
  frame (10, 10) [MOUSEBUTTONDOWN 1; QUIT; MOUSEMOTION] initial_state = SystemExit.
Proof.
  apply (quit_exits (10, 10) [MOUSEBUTTONDOWN 1; QUIT; MOUSEMOTION] initial_state);
    [split; reflexivity|].
  apply (bool_decide_unpack _). vm_compute. exact I.
Defined.

Lemma release_commits_the_preview_witness :
  ∃ st', frame (20, 10) [MOUSEBUTTONUP 1] previewing_line = Ok st' ∧
         ∀ q, inside (canvas initial_state) q = true →
              pixel (canvas st') q
                = pixel (render_preview (20, 10) previewing_line
                                        (new_surface WIDTH HEIGHT)) q.
Proof.
  apply (release_commits_the_preview previewing_line (canvas initial_state) (10, 10)
           (20, 10) (new_surface WIDTH HEIGHT)); reflexivity.
Defined.

Lemma release_restores_snapshot_witness :
  ∃ st', frame (20, 10) [MOUSEBUTTONUP 1] previewing_line = Ok st' ∧
         temp_surface st' = None ∧
         ∀ q, inside (canvas initial_state) q = true →
              pixel (canvas st') q =
                if outline line (10, 10) (20, 10) 5 q then BLACK
                else pixel (canvas initial_state) q.
Proof.
  apply (release_restores_snapshot previewing_line (canvas initial_state) (10, 10)
           (20, 10)); reflexivity.
Defined.

(** The state [stale_snapshot] is reached from start-up: the line tool is
    selected and pressed at (10, 10), the button is released at (990, 690),
    and the pencil button is pressed. *)
Lemma stale_snapshot_reached :
  frames [(950, 260, [MOUSEBUTTONDOWN 1]); (10, 10, [MOUSEBUTTONDOWN 1]);
          (990, 690, [MOUSEBUTTONUP 1]); (830, 260, [MOUSEBUTTONDOWN 1])]
         initial_state
    = Ok stale_snapshot.
Proof. reflexivity. Qed.

Lemma stale_snapshot_covers_display_witness :
  get_at (render_preview (20, 10) stale_snapshot (new_surface WIDTH HEIGHT)) (20, 10)
    = get_at (blit (new_surface WIDTH HEIGHT) (canvas initial_state) (0, 0)) (20, 10).
Proof.
  apply (stale_snapshot_covers_display stale_snapshot (canvas initial_state) (10, 10)
           (20, 10) (new_surface WIDTH HEIGHT)); reflexivity.
Defined.

Lemma stroke_survives_release_off_canvas_witness :
  frames [(990, 690, [MOUSEBUTTONUP 1]); (30, 40, [MOUSEMOTION])] drawing_with_pencil
    = Ok (set_last_pos
            (set_canvas drawing_with_pencil
               (pygame_draw_line (canvas initial_state) BLACK (10, 10) (30, 40) 5))
            (Some (30, 40))).
Proof.
  apply (stroke_survives_release_off_canvas drawing_with_pencil (10, 10) (990, 690)
           (30, 40)); reflexivity.
Defined.

End ConcreteMore.
